(** * Application.cpp: shader source splitter, shader program builder, draw loop

    A shallow embedding of [src/OpenGL/src/Application.cpp].

    - [Splitter]: [Application::ParseShader], the line-by-line reader that
      routes the lines of a combined shader file into two string buffers.
    - [Builder]: [Application::CompileShader], [Application::CreateShader],
      [Application::init] and [Application::render] as programs of a small
      state-and-halt monad over an abstract OpenGL implementation.
    - [Float32]: IEEE-754 binary32 arithmetic for the animated colour channel.

    Declarations that live in headers outside this file ([Application.h],
    [Renderer.h]) are taken as parameters or modelled from the specification;
    each such place says so. *)

From Equations Require Import Equations.
From Equations.Prop Require Import Logic.
From Stdlib Require Import String Ascii List ZArith Lia Bool SpecFloat
  Permutation.
Import ListNotations.

(** ** Outcomes of running a piece of C++ *)

(** A run either returns a value, or leaves defined behaviour behind (an array
    indexed out of bounds, a member call through a null pointer). *)
Inductive outcome (A : Type) : Type :=
| Returns (a : A)
| Undefined.
Arguments Returns {A} a.
Arguments Undefined {A}.

Definition bind_outcome {A B} (o : outcome A) (k : A -> outcome B) : outcome B :=
  match o with
  | Returns a => k a
  | Undefined => Undefined
  end.

(** ** Two facts about string concatenation *)

Lemma append_assoc (a b c : string) :
  ((a ++ b) ++ c = a ++ b ++ c)%string.
Proof. induction a as [|x a IH]; simpl; [reflexivity | now rewrite IH]. Qed.

Lemma append_empty_r (a : string) : (a ++ "" = a)%string.
Proof. induction a as [|x a IH]; simpl; [reflexivity | now rewrite IH]. Qed.

(* ====================================================================== *)
Module Splitter.

Open Scope string_scope.

(** [ShaderProgramSource::ShaderType] and [ShaderProgramSource] are declared
    in [Application.h]; the enumerators are the three used by [ParseShader]. *)
Inductive ShaderType : Type := NONE | VERTEX | FRAGMENT.

Record ShaderProgramSource : Type :=
  { VertexSource : string; FragmentSource : string }.

Definition ShaderType_eqb (a b : ShaderType) : bool :=
  match a, b with
  | NONE, NONE | VERTEX, VERTEX | FRAGMENT, FRAGMENT => true
  | _, _ => false
  end.

(** *** std::string and std::ifstream *)

Definition newline : ascii := "010"%char.
Definition nl : string := String newline EmptyString.

(** [line.find(needle)]: position of the first occurrence, [None] for
    [std::string::npos]. *)
Definition find (line needle : string) : option nat := String.index 0 needle line.

Definition npos : option nat := None.

Definition is_npos (p : option nat) : bool :=
  match p with None => true | Some _ => false end.

(** The files the program can open: [None] when opening the path fails. *)
Definition filesystem : Type := string -> option string.

(** An input stream: its fail bit and the characters not yet extracted. *)
Record ifstream : Type := { failbit : bool; unread : string }.

(** [std::ifstream stream(filepath)] *)
Definition ifstream_open (fs : filesystem) (filepath : string) : ifstream :=
  match fs filepath with
  | Some text => {| failbit := false; unread := text |}
  | None => {| failbit := true; unread := "" |}
  end.

(** Characters up to the first ['\n'] (which is extracted and dropped) or up
    to the end of the file, and what is left after them. *)
Fixpoint extract_line (s : string) : string * string :=
  match s with
  | EmptyString => (EmptyString, EmptyString)
  | String c rest =>
      if Ascii.eqb c newline then (EmptyString, rest)
      else let (line, rest') := extract_line rest in (String c line, rest')
  end.

(** [getline(stream, line)]: the new stream state, and the line when the
    extraction succeeded.  On a failed stream, or when no character at all
    can be extracted, the fail bit is set and the call converts to false. *)
Definition getline (stream : ifstream) : ifstream * option string :=
  if failbit stream then (stream, None)
  else match unread stream with
       | EmptyString => ({| failbit := true; unread := EmptyString |}, None)
       | String _ _ =>
           let (line, rest) := extract_line (unread stream) in
           ({| failbit := false; unread := rest |}, Some line)
       end.

(** *** The array [std::stringstream ss[2]] *)

Definition ss_size : Z := 2.

Definition in_bounds (i : Z) : bool := ((0 <=? i) && (i <? ss_size))%Z.

(** [ss[i].str()] *)
Definition ss_str (ss : list string) (i : Z) : outcome string :=
  if in_bounds i then
    match nth_error ss (Z.to_nat i) with
    | Some s => Returns s
    | None => Undefined
    end
  else Undefined.

Fixpoint update (ss : list string) (n : nat) (s : string) : list string :=
  match ss, n with
  | [], _ => []
  | _ :: tl, O => s :: tl
  | hd :: tl, S n' => hd :: update tl n' s
  end.

(** [ss[i] << line << '\n'] *)
Definition ss_put (ss : list string) (i : Z) (line : string) : outcome (list string) :=
  match ss_str ss i with
  | Returns old => Returns (update ss (Z.to_nat i) (old ++ line ++ nl))
  | Undefined => Undefined
  end.

(** *** ParseShader *)

Section ParseShader.

(** The integer value of each enumerator, [(int)type].  The enum is declared
    in [Application.h]; its values are a parameter here. *)
Variable int_of : ShaderType -> Z.

(** The local variables that the loop changes. *)
Record locals : Type := { type : ShaderType; ss : list string }.

(** One pass through the body of the [while] loop. *)
Definition loop_body (line : string) (l : locals) : outcome locals :=
  if negb (is_npos (find line "#shader")) then
    if negb (is_npos (find line "vertex")) then
      Returns {| type := VERTEX; ss := ss l |}
    else if negb (is_npos (find line "fragment")) then
      Returns {| type := FRAGMENT; ss := ss l |}
    else Returns l
  else
    bind_outcome (ss_put (ss l) (int_of (type l)) line)
      (fun ss' => Returns {| type := type l; ss := ss' |}).

Lemma extract_line_shorter s :
  String.length (snd (extract_line s)) <= String.length s.
Proof.
  induction s as [|c s IH]; simpl; [lia|].
  destruct (Ascii.eqb c newline); simpl; [lia|].
  destruct (extract_line s); simpl in *; lia.
Qed.

Lemma getline_shorter stream stream' line :
  getline stream = (stream', Some line) ->
  String.length (unread stream') < String.length (unread stream).
Proof.
  unfold getline. destruct (failbit stream); [discriminate|].
  destruct (unread stream) as [|c s] eqn:E; [discriminate|].
  pose proof (extract_line_shorter s) as Hs.
  simpl. destruct (Ascii.eqb c newline).
  - intros [= <- _]. simpl. lia.
  - destruct (extract_line s) as [l r]. intros [= <- _]. simpl in *. lia.
Qed.

(** [while (getline(stream, line)) { ... }] *)
Equations? while_getline (stream : ifstream) (l : locals) : outcome locals
  by wf (String.length (unread stream)) lt :=
  while_getline stream l with inspect (getline stream) := {
    | exist _ (stream', Some line) Hg with loop_body line l := {
        | Returns l' := while_getline stream' l';
        | Undefined := Undefined };
    | exist _ (_, None) _ := Returns l }.
Proof. eapply getline_shorter; eassumption. Qed.

Definition ParseShader (fs : filesystem) (filepath : string)
  : outcome ShaderProgramSource :=
  let type0 := NONE in
  let stream := ifstream_open fs filepath in
  let ss0 := [""; ""] in
  bind_outcome (while_getline stream {| type := type0; ss := ss0 |}) (fun l =>
  bind_outcome (ss_str (ss l) (int_of VERTEX)) (fun v =>
  bind_outcome (ss_str (ss l) (int_of FRAGMENT)) (fun f =>
  Returns {| VertexSource := v; FragmentSource := f |}))).

End ParseShader.

(** The customary declaration for this splitter,
    [enum class ShaderType { NONE = -1, VERTEX = 0, FRAGMENT = 1 }]:
    the two sections index the two elements of [ss], [NONE] neither. *)
Definition customary (t : ShaderType) : Z :=
  match t with NONE => -1 | VERTEX => 0 | FRAGMENT => 1 end.

(** A file system holding one file. *)
Definition one_file (path text : string) : filesystem :=
  fun p => if String.eqb p path then Some text else None.

Definition no_files : filesystem := fun _ => None.

(** *** The loop as a pass over the lines of the stream *)

(** Every line that successive [getline] calls extract from the stream. *)
Equations? lines_of (stream : ifstream) : list string
  by wf (String.length (unread stream)) lt :=
  lines_of stream with inspect (getline stream) := {
    | exist _ (stream', Some line) Hg := line :: lines_of stream';
    | exist _ (_, None) _ := [] }.
Proof. eapply getline_shorter; eassumption. Qed.

(** The loop body applied to a list of lines in order. *)
Fixpoint run_lines (int_of : ShaderType -> Z) (lines : list string) (l : locals)
  : outcome locals :=
  match lines with
  | [] => Returns l
  | line :: rest =>
      bind_outcome (loop_body int_of line l) (run_lines int_of rest)
  end.

Lemma while_getline_step int_of stream l :
  while_getline int_of stream l =
  match getline stream with
  | (stream', Some line) =>
      bind_outcome (loop_body int_of line l) (while_getline int_of stream')
  | (_, None) => Returns l
  end.
Proof.
  funelim (while_getline int_of stream l);
    match goal with Hg : getline _ = _ |- _ => rewrite Hg end;
    try match goal with Hb : loop_body _ _ _ = _ |- _ => rewrite Hb end;
    reflexivity.
Qed.

Lemma lines_of_step stream :
  lines_of stream =
  match getline stream with
  | (stream', Some line) => line :: lines_of stream'
  | (_, None) => []
  end.
Proof.
  funelim (lines_of stream);
    match goal with Hg : getline _ = _ |- _ => rewrite Hg end;
    reflexivity.
Qed.

Lemma while_getline_run_lines int_of stream l :
  while_getline int_of stream l = run_lines int_of (lines_of stream) l.
Proof.
  revert l.
  induction stream as [stream IH]
    using (well_founded_induction
             (Wf_nat.well_founded_ltof _
                (fun st => String.length (unread st)))).
  intros l. rewrite while_getline_step, lines_of_step.
  destruct (getline stream) as [stream' [line|]] eqn:Hg; [|reflexivity].
  simpl. destruct (loop_body int_of line l) as [l'|]; simpl; [|reflexivity].
  apply IH. unfold Wf_nat.ltof. eapply getline_shorter; eassumption.
Qed.

(** The lines of a whole text, read from a freshly opened stream. *)
Definition text_lines (text : string) : list string :=
  lines_of {| failbit := false; unread := text |}.

Lemma lines_of_failed s : lines_of {| failbit := true; unread := s |} = [].
Proof. now rewrite lines_of_equation_1. Qed.

Lemma ParseShader_run_lines int_of fs filepath :
  ParseShader int_of fs filepath =
  bind_outcome
    (run_lines int_of (lines_of (ifstream_open fs filepath))
       {| type := NONE; ss := [""; ""] |})
    (fun l =>
     bind_outcome (ss_str (ss l) (int_of VERTEX)) (fun v =>
     bind_outcome (ss_str (ss l) (int_of FRAGMENT)) (fun f =>
     Returns {| VertexSource := v; FragmentSource := f |}))).
Proof. unfold ParseShader. now rewrite while_getline_run_lines. Qed.

End Splitter.


(* ====================================================================== *)
Module Float32.

(** The C++ type [float]: IEEE-754 binary32, round to nearest even. *)
Definition prec : Z := 24.
Definition emax : Z := 128.

Definition float : Type := spec_float.

Definition of_int (n : Z) : float := binary_normalize prec emax n 0 false.
Definition add : float -> float -> float := SFadd prec emax.
Definition div : float -> float -> float := SFdiv prec emax.
Definition opp : float -> float := SFopp.
Definition ltb : float -> float -> bool := SFltb.
Definition leb : float -> float -> bool := SFleb.

(** The literal [num/den f]: the binary32 value nearest to the decimal
    fraction, which is what the correctly rounded quotient of the two exactly
    representable integers is. *)
Definition literal (num den : Z) : float := div (of_int num) (of_int den).

Definition f0_0 : float := of_int 0.
Definition f1_0 : float := of_int 1.
Definition f0_05 : float := literal 5 100.
Definition f0_01 : float := literal 1 100.
Definition f0_3 : float := literal 3 10.
Definition f0_8 : float := literal 8 10.
Definition f0_5 : float := literal 5 10.

End Float32.

(* ====================================================================== *)
Module Builder.

Import Splitter.
Import Float32.
Open Scope string_scope.
Open Scope Z_scope.

(** *** Constants of [GL/glew.h] *)

Definition GL_FALSE : Z := 0.
Definition GL_TRIANGLES : Z := 4.
Definition GL_UNSIGNED_INT : Z := 5125.
Definition GL_FLOAT : Z := 5126.
Definition GL_ARRAY_BUFFER : Z := 34962.
Definition GL_ELEMENT_ARRAY_BUFFER : Z := 34963.
Definition GL_FRAGMENT_SHADER : Z := 35632.
Definition GL_VERTEX_SHADER : Z := 35633.
Definition GL_COMPILE_STATUS : Z := 35713.
Definition GL_INFO_LOG_LENGTH : Z := 35716.

Definition nullptr : Z := 0.
Definition sizeof_float : Z := 4.

(** *** Calls that leave the program *)

(** The OpenGL entry points the file calls, with the arguments that matter,
    and the member functions of the buffer classes ([VertexBuffer],
    [IndexBuffer], [VertexArray]), which are defined in other files. *)
Inductive call : Type :=
| glCreateShader (type : Z)
| glShaderSource (shader count : Z) (source : string)
| glCompileShader (shader : Z)
| glGetShaderiv (shader pname : Z)
| glGetShaderInfoLog (shader bufSize : Z)
| glDeleteShader (shader : Z)
| glCreateProgram
| glAttachShader (program shader : Z)
| glLinkProgram (program : Z)
| glValidateProgram (program : Z)
| glUseProgram (program : Z)
| glGetUniformLocation (program : Z) (name : string)
| glUniform4f (location : Z) (v0 v1 v2 v3 : float)
| glDrawElements (mode count type : Z)
| glBindBuffer (target buffer : Z)
| VertexBuffer_new (data : list float) (size : Z)
| IndexBuffer_new (data : list Z) (count : Z)
| VertexArray_AddBuffer (va vb : Z) (layout : list (Z * Z))
| VertexArray_Bind (va : Z)
| VertexArray_Unbind (va : Z)
| IndexBuffer_Bind (ib : Z).

(** What comes back from a call: the returned value (or the integer written
    through the out-pointer), the characters the call has for a buffer
    argument (it writes as many of them as the buffer takes), and whether
    the call left an OpenGL error behind. *)
Record reply : Type := { value : Z; text : string; gl_error : bool }.

(** The fields of [Application] (declared in [Application.h]). *)
Record Application : Type :=
  { m_Shader : Z;
    m_Increment : float;
    m_UniformLoc : Z;
    va : Z;
    vb : Z;
    ib : Z }.

(** [Application::Application()] *)
Definition Application_new : Application :=
  {| m_Shader := 0; m_Increment := f0_05; m_UniformLoc := 0;
     va := nullptr; vb := nullptr; ib := nullptr |}.

Section Program.

(** The OpenGL implementation and the buffer classes: a state and how each
    call answers and changes it. *)
Variable Driver : Type.
Variable gl : call -> Driver -> reply * Driver.

(** The values of the enumerators and the files on disk, for [ParseShader]. *)
Variable int_of : ShaderType -> Z.
Variable files : filesystem.

(** Everything outside the [Application] object: the implementation, the
    calls made so far with their replies, what the statements of this file
    wrote to [std::cout], the function-local [static float r] of [render],
    the errors that the check of [CALL] has surfaced so far, each with its
    call site (the line of the source), the call with its argument values
    and the reply that carried the error, and whether the debug-only
    assertion of that check is active in this run. *)
Record World : Type :=
  { driver : Driver;
    calls : list (call * reply);
    cout : string;
    r : float;
    surfaced : list (Z * call * reply);
    debug : bool }.

(** A run returns, is stopped by a failed assertion, or is undefined. *)
Inductive run (A : Type) : Type :=
| Done (a : A) (w : World)
| Halted (w : World)
| Undef.
Arguments Done {A} a w.
Arguments Halted {A} w.
Arguments Undef {A}.

Definition M (A : Type) : Type := World -> run A.

Definition ret {A} (a : A) : M A := fun w => Done a w.

Definition bind {A B} (m : M A) (k : A -> M B) : M B :=
  fun w =>
    match m w with
    | Done a w' => k a w'
    | Halted w' => Halted w'
    | Undef => Undef
    end.

Notation "x <- m ;; k" := (bind m (fun x => k))
  (at level 61, m at next level, right associativity).
Notation "m ;;; k" := (bind m (fun _ => k))
  (at level 61, right associativity).

(** A call, made and logged. *)
Definition invoke (c : call) : M reply :=
  fun w =>
    let (rep, d) := gl c (driver w) in
    Done rep {| driver := d; calls := (calls w ++ [(c, rep)])%list;
                cout := cout w; r := r w;
                surfaced := surfaced w; debug := debug w |}.

(** Modelled from the spec: the [ASSERT] macro of [Renderer.h], which
    [init] applies to the uniform location: a hard stop when its condition
    is false (a uniform that is not found must halt setup). *)
Definition ASSERT (cond : bool) : M unit :=
  fun w => if cond then Done tt w else Halted w.

(** An error is surfaced with its context. *)
Definition surface (line : Z) (c : call) (rep : reply) : M unit :=
  fun w => Done tt {| driver := driver w; calls := calls w;
                      cout := cout w; r := r w;
                      surfaced := (surfaced w ++ [(line, c, rep)])%list;
                      debug := debug w |}.

(** Modelled from the spec: the [CALL] macro of [Renderer.h], which wraps a
    fallible call so that the error state of the call is checked
    immediately after the invocation.  A detected error is surfaced with
    its context: the call site ([line], the line of the statement in the
    source) and the call with its argument values.  The debug-only
    assertion, when it is active, then halts the run on this first detected
    error; when it is not, the run goes on. *)
Definition CALL (line : Z) (c : call) : M reply :=
  rep <- invoke c ;;
  if gl_error rep then
    surface line c rep ;;;
    fun w => if debug w then Halted w else Done rep w
  else ret rep.

(** [std::cout << s] *)
Definition print (s : string) : M unit :=
  fun w => Done tt {| driver := driver w; calls := calls w;
                      cout := cout w ++ s; r := r w;
                      surfaced := surfaced w; debug := debug w |}.

(** A member call through the pointer [p]. *)
Definition through (p : Z) (c : call) : M reply :=
  fun w => if p =? nullptr then Undef else invoke c w.

Definition lift {A} (o : outcome A) : M A :=
  fun w => match o with Returns a => Done a w | Undefined => Undef end.

(** A character array read as a C string: the characters before the first
    null character. *)
Fixpoint c_str (s : string) : string :=
  match s with
  | EmptyString => EmptyString
  | String c s' => if Ascii.eqb c zero then EmptyString else String c (c_str s')
  end.

(** An [int] declared without an initial value and handed to a call
    through a pointer, read after the call.  A call that leaves an error
    behind is ignored by OpenGL and changes nothing through its pointer
    arguments: the variable is then read uninitialised, which is
    undefined. *)
Definition out_value (rep : reply) : outcome Z :=
  if gl_error rep then Undefined else Returns (value rep).

(** The array [message], which [_malloca] allocates with [length]
    characters, after [glGetShaderInfoLog(id, length, &length, message)],
    read as a C string by [std::cout << message].  The call writes at most
    [length] characters, the terminating null included, so for a positive
    [length] the array holds the first [length - 1] characters of the log
    and a null.  For [length <= 0], and when the call leaves an error
    behind, nothing is written, and reading the array is undefined. *)
Definition message_in (length : Z) (log : reply) : outcome string :=
  if (length <=? 0) || gl_error log then Undefined
  else Returns (c_str (substring 0 (Z.to_nat (length - 1)) (text log))).

Definition CompileShader (type : Z) (source : string) : M Z :=
  id_r <- invoke (glCreateShader type) ;;
  let id := value id_r in
  CALL 65 (glShaderSource id 1 source) ;;;
  CALL 68 (glCompileShader id) ;;;
  result_r <- CALL 72 (glGetShaderiv id GL_COMPILE_STATUS) ;;
  result <- lift (out_value result_r) ;;
  if result =? GL_FALSE then
    length_r <- CALL 76 (glGetShaderiv id GL_INFO_LOG_LENGTH) ;;
    length <- lift (out_value length_r) ;;
    log <- CALL 79 (glGetShaderInfoLog id length) ;;
    print ("Failed to compile "
           ++ (if type =? GL_VERTEX_SHADER then "vertex" else "fragment")
           ++ " shader!" ++ nl) ;;;
    message <- lift (message_in length log) ;;
    print (message ++ nl) ;;;
    CALL 83 (glDeleteShader id) ;;;
    ret 0
  else ret id.

Definition CreateShader (vertexShader fragmentShader : string) : M Z :=
  program_r <- invoke glCreateProgram ;;
  let program := value program_r in
  vs <- CompileShader GL_VERTEX_SHADER vertexShader ;;
  fs <- CompileShader GL_FRAGMENT_SHADER fragmentShader ;;
  CALL 98 (glAttachShader program vs) ;;;
  CALL 99 (glAttachShader program fs) ;;;
  CALL 103 (glLinkProgram program) ;;;
  CALL 107 (glValidateProgram program) ;;;
  CALL 112 (glDeleteShader vs) ;;;
  CALL 113 (glDeleteShader fs) ;;;
  ret program.

Definition positions : list float :=
  [opp f0_5; opp f0_5;
   f0_5; opp f0_5;
   f0_5; f0_5;
   opp f0_5; f0_5].

Definition indices : list Z := [0; 1; 2; 2; 3; 0].

(** [init], the blocks [VERTEX BUFFER] and [INDEX BUFFER]. *)
Definition init_buffers (app : Application) : M Application :=
  vb_r <- invoke (VertexBuffer_new positions (4 * 2 * sizeof_float)) ;;
  let layout := [(GL_FLOAT, 2)] in
  through (va app) (VertexArray_AddBuffer (va app) (value vb_r) layout) ;;;
  ib_r <- invoke (IndexBuffer_new indices 6) ;;
  ret {| m_Shader := m_Shader app; m_Increment := m_Increment app;
         m_UniformLoc := m_UniformLoc app;
         va := va app; vb := value vb_r; ib := value ib_r |}.

(** [init], the block [SHADERS]. *)
Definition init_shaders (app : Application) : M Application :=
  source <- lift (ParseShader int_of files "res/shaders/Basic.shader") ;;
  shader <- CreateShader (VertexSource source) (FragmentSource source) ;;
  CALL 152 (glUseProgram shader) ;;;
  ret {| m_Shader := shader; m_Increment := m_Increment app;
         m_UniformLoc := m_UniformLoc app;
         va := va app; vb := vb app; ib := ib app |}.

(** [init], the block [UNIFORMS]. *)
Definition init_uniforms (app : Application) : M Application :=
  loc <- CALL 156 (glGetUniformLocation (m_Shader app) "u_Color") ;;
  let app := {| m_Shader := m_Shader app; m_Increment := m_Increment app;
                m_UniformLoc := value loc;
                va := va app; vb := vb app; ib := ib app |} in
  ASSERT (negb (m_UniformLoc app =? -1)) ;;;
  CALL 158 (glUniform4f (m_UniformLoc app) f0_0 f0_3 f0_8 f1_0) ;;;
  ret app.

(** [init], the block [Unbind everything]. *)
Definition init_unbind (app : Application) : M Application :=
  through (va app) (VertexArray_Unbind (va app)) ;;;
  CALL 162 (glUseProgram 0) ;;;
  CALL 163 (glBindBuffer GL_ARRAY_BUFFER 0) ;;;
  CALL 164 (glBindBuffer GL_ELEMENT_ARRAY_BUFFER 0) ;;;
  ret app.

Definition init (app : Application) : M Application :=
  app <- init_buffers app ;;
  app <- init_shaders app ;;
  app <- init_uniforms app ;;
  init_unbind app.

(** The colour cycle at the end of [render]: the new [m_Increment] and the
    new [r]. *)
Definition color_cycle (r0 increment : float) : float * float :=
  let increment := if ltb f1_0 r0 then opp f0_01 else increment in
  let increment := if ltb r0 f0_0 then f0_01 else increment in
  (add r0 increment, increment).

Definition render (app : Application) : M Application :=
  CALL 171 (glUseProgram (m_Shader app)) ;;;
  (fun w => CALL 172 (glUniform4f (m_UniformLoc app) (r w) f0_3 f0_8 f1_0) w) ;;;
  through (va app) (VertexArray_Bind (va app)) ;;;
  through (ib app) (IndexBuffer_Bind (ib app)) ;;;
  CALL 179 (glDrawElements GL_TRIANGLES 6 GL_UNSIGNED_INT) ;;;
  fun w =>
    let (r', increment) := color_cycle (r w) (m_Increment app) in
    Done {| m_Shader := m_Shader app; m_Increment := increment;
            m_UniformLoc := m_UniformLoc app;
            va := va app; vb := vb app; ib := ib app |}
         {| driver := driver w; calls := calls w; cout := cout w; r := r';
            surfaced := surfaced w; debug := debug w |}.

(** [render] called once per frame, [n] frames. *)
Fixpoint frames (n : nat) (app : Application) : M Application :=
  match n with
  | O => ret app
  | S n' => app' <- frames n' app ;; render app'
  end.

End Program.

Arguments Done {Driver A} a w.
Arguments Halted {Driver A} w.
Arguments Undef {Driver A}.
Arguments driver {Driver} w.
Arguments calls {Driver} w.
Arguments cout {Driver} w.
Arguments r {Driver} w.
Arguments surfaced {Driver} w.
Arguments debug {Driver} w.
Arguments ret {Driver A} a w.
Arguments bind {Driver A B} m k w.
Arguments invoke {Driver} gl c w.
Arguments ASSERT {Driver} cond w.
Arguments surface {Driver} line c rep w.
Arguments CALL {Driver} gl line c w.
Arguments print {Driver} s w.
Arguments through {Driver} gl p c w.
Arguments lift {Driver A} o w.
Arguments CompileShader {Driver} gl type source w.
Arguments CreateShader {Driver} gl vertexShader fragmentShader w.
Arguments init_buffers {Driver} gl app w.
Arguments init_shaders {Driver} gl int_of files app w.
Arguments init_uniforms {Driver} gl app w.
Arguments init_unbind {Driver} gl app w.
Arguments init {Driver} gl int_of files app w.
Arguments render {Driver} gl app w.
Arguments frames {Driver} gl n app w.

(** What a [delete] expression releases. *)
Inductive release : Type :=
| delete_VertexBuffer (p : Z)
| delete_IndexBuffer (p : Z).

(** [Application::~Application()]: [delete vb; delete ib;], where deleting
    a null pointer does nothing. *)
Definition Application_delete (app : Application) : list release :=
  ((if vb app =? nullptr then [] else [delete_VertexBuffer (vb app)])
   ++ (if ib app =? nullptr then [] else [delete_IndexBuffer (ib app)]))%list.

End Builder.

(* ====================================================================== *)
Module SplitterSpec.

Import Splitter.
Open Scope string_scope.

(** *** What the specification says about sections *)

(** A marker line of the documented form [#shader <keyword>]. *)
Definition marker_keyword (line : string) : option ShaderType :=
  if String.eqb line "#shader vertex" then Some VERTEX
  else if String.eqb line "#shader fragment" then Some FRAGMENT
  else None.

(** Marker lines are well-formed: every line carrying the marker token has
    the documented form. *)
Definition well_formed_line (line : string) : bool :=
  is_npos (find line "#shader")
  || match marker_keyword line with Some _ => true | None => false end.

Definition well_formed_markers (lines : list string) : bool :=
  forallb well_formed_line lines.

(** The text of section [want]: the lines whose most recent marker names
    [want], in order, each followed by one newline.  [active] is the section
    of the most recent marker, [None] before the first one. *)
Fixpoint section_text (want : ShaderType) (active : option ShaderType)
  (lines : list string) : string :=
  match lines with
  | [] => ""
  | line :: rest =>
      match marker_keyword line with
      | Some t => section_text want (Some t) rest
      | None =>
          match active with
          | Some t =>
              (if ShaderType_eqb t want then line ++ nl else "")
              ++ section_text want active rest
          | None => section_text want active rest
          end
      end
  end.

(** A content line comes before the first marker line. *)
Definition stray_content (lines : list string) : bool :=
  match lines with
  | [] => false
  | line :: _ => is_npos (find line "#shader")
  end.

(** [needle] occurs in [line]. *)
Definition occurs (needle line : string) : Prop :=
  exists pre post, line = pre ++ needle ++ post.

(** The scenario of the specification. *)
Definition scenario : string :=
  "#shader vertex" ++ nl ++ "A" ++ nl ++ "#shader fragment" ++ nl ++ "B" ++ nl.

Definition shader_path : string := "res/shaders/Basic.shader".

(** *** Occurrence and [find] *)

Lemma prefix_append needle post : String.prefix needle (needle ++ post) = true.
Proof.
  induction needle as [|c needle IH]; simpl.
  - now destruct post.
  - destruct (ascii_dec c c) as [_|n]; [exact IH | now destruct n].
Qed.

Lemma find_occurrence pre needle post :
  needle <> "" -> find (pre ++ needle ++ post) needle <> npos.
Proof.
  intros Hne. unfold find, npos.
  induction pre as [|c pre IH]; simpl.
  - destruct needle as [|a needle]; [now destruct Hne|].
    change (String a needle ++ post) with (String a (needle ++ post)).
    cbn [index].
    change (String a (needle ++ post)) with (String a needle ++ post).
    rewrite prefix_append. congruence.
  - match goal with |- (if ?b then _ else _) <> _ => destruct b end;
      [congruence|].
    destruct (index 0 needle (pre ++ needle ++ post)); [congruence|].
    now destruct IH.
Qed.

Lemma substring_prefix n s t :
  substring 0 n s = t -> String.length t = n -> exists post, s = t ++ post.
Proof.
  revert s t. induction n as [|n IH]; intros s t.
  - destruct s; simpl; intros <- _; eexists; reflexivity.
  - destruct s as [|c s]; simpl; intros <-; simpl; [discriminate|].
    intros [= Hlen]. destruct (IH s _ eq_refl Hlen) as (post & E).
    exists post. now rewrite E at 1.
Qed.

Lemma substring_occurs m n s t :
  substring m n s = t -> String.length t = n -> occurs t s.
Proof.
  revert s. induction m as [|m IH]; intros s Hs Hlen.
  - destruct (substring_prefix _ _ _ Hs Hlen) as (post & ->).
    exists "", post. reflexivity.
  - destruct s as [|c s]; simpl in Hs.
    + subst t. exists "", "". reflexivity.
    + destruct (IH s Hs Hlen) as (pre & post & ->).
      exists (String c pre), post. reflexivity.
Qed.

Lemma found_occurs line needle :
  find line needle <> npos -> occurs needle line.
Proof.
  unfold find, npos. destruct (index 0 needle line) as [m|] eqn:E; [|tauto].
  intros _. eapply substring_occurs; [eapply index_correct1; eassumption|].
  reflexivity.
Qed.

Lemma occurs_found line needle :
  needle <> "" -> occurs needle line -> find line needle <> npos.
Proof. intros Hne (pre & post & ->). now apply find_occurrence. Qed.

(** *** The loop body, case by case *)

Lemma is_npos_false p : negb (is_npos p) = true <-> p <> npos.
Proof. unfold npos. destruct p; simpl; split; congruence. Qed.

Lemma is_npos_true p : is_npos p = true <-> p = npos.
Proof. unfold npos. destruct p; simpl; split; congruence. Qed.

Lemma loop_body_content int_of line l :
  find line "#shader" = npos ->
  loop_body int_of line l =
  bind_outcome (ss_put (ss l) (int_of (type l)) line)
    (fun ss' => Returns {| type := type l; ss := ss' |}).
Proof. intros H. unfold loop_body. now rewrite H. Qed.

Lemma loop_body_vertex int_of line l :
  find line "#shader" <> npos -> find line "vertex" <> npos ->
  loop_body int_of line l = Returns {| type := VERTEX; ss := ss l |}.
Proof.
  intros H1 H2. unfold loop_body.
  apply is_npos_false in H1, H2. now rewrite H1, H2.
Qed.

Lemma loop_body_fragment int_of line l :
  find line "#shader" <> npos -> find line "vertex" = npos ->
  find line "fragment" <> npos ->
  loop_body int_of line l = Returns {| type := FRAGMENT; ss := ss l |}.
Proof.
  intros H1 H2 H3. unfold loop_body.
  apply is_npos_false in H1, H3. now rewrite H1, H2, H3.
Qed.

Lemma loop_body_other int_of line l :
  find line "#shader" <> npos -> find line "vertex" = npos ->
  find line "fragment" = npos ->
  loop_body int_of line l = Returns l.
Proof.
  intros H1 H2 H3. unfold loop_body.
  apply is_npos_false in H1. now rewrite H1, H2, H3.
Qed.

Lemma run_lines_app int_of before after st :
  run_lines int_of (before ++ after)%list st =
  bind_outcome (run_lines int_of before st) (run_lines int_of after).
Proof.
  revert st. induction before as [|line before IH]; intros st; simpl.
  - reflexivity.
  - destruct (loop_body int_of line st); simpl; [apply IH | reflexivity].
Qed.

(** *** Slots of the two-element array *)

Lemma slot_cases i : {i = 0%Z} + {i = 1%Z} + {in_bounds i = false}.
Proof.
  destruct (Z.eq_dec i 0) as [->|H0]; [left; left; reflexivity|].
  destruct (Z.eq_dec i 1) as [->|H1]; [left; right; reflexivity|].
  right. unfold in_bounds, ss_size.
  destruct (0 <=? i)%Z eqn:E1; destruct (i <? 2)%Z eqn:E2; try reflexivity.
  apply Z.leb_le in E1. apply Z.ltb_lt in E2. lia.
Qed.

Lemma ss_str_out_of_bounds ss i : in_bounds i = false -> ss_str ss i = Undefined.
Proof. intros H. unfold ss_str. now rewrite H. Qed.

Lemma ss_put_out_of_bounds ss i line :
  in_bounds i = false -> ss_put ss i line = Undefined.
Proof. intros H. unfold ss_put. now rewrite ss_str_out_of_bounds. Qed.

(** The two buffers are distinct elements of the array. *)
Definition slots_ok (int_of : ShaderType -> Z) : Prop :=
  in_bounds (int_of VERTEX) = true /\ in_bounds (int_of FRAGMENT) = true /\
  int_of VERTEX <> int_of FRAGMENT.

Lemma slots_ok_cases int_of :
  slots_ok int_of ->
  (int_of VERTEX = 0 /\ int_of FRAGMENT = 1)%Z \/
  (int_of VERTEX = 1 /\ int_of FRAGMENT = 0)%Z.
Proof.
  intros (Hv & Hf & Hne).
  destruct (slot_cases (int_of VERTEX)) as [[Ev|Ev]|Ev];
    destruct (slot_cases (int_of FRAGMENT)) as [[Ef|Ef]|Ef];
    try congruence; auto.
Qed.

(** *** Sections of a text whose content follows its markers *)

(** The buffer of section [t] in the array [[a; b]]. *)
Definition pick (int_of : ShaderType -> Z) (t : ShaderType) (a b : string) : string :=
  if (int_of t =? 0)%Z then a else b.

Lemma marker_keyword_cases line t :
  marker_keyword line = Some t ->
  (line = "#shader vertex" /\ t = VERTEX) \/
  (line = "#shader fragment" /\ t = FRAGMENT).
Proof.
  unfold marker_keyword.
  destruct (String.eqb_spec line "#shader vertex") as [->|_];
    [intros [= <-]; now left|].
  destruct (String.eqb_spec line "#shader fragment") as [->|_];
    [intros [= <-]; now right | discriminate].
Qed.

Lemma ss_put_pair int_of t a b line :
  slots_ok int_of -> t <> NONE ->
  exists a' b',
    ss_put [a; b] (int_of t) line = Returns [a'; b'] /\
    pick int_of VERTEX a' b' =
      pick int_of VERTEX a b ++ (if ShaderType_eqb t VERTEX then line ++ nl else "") /\
    pick int_of FRAGMENT a' b' =
      pick int_of FRAGMENT a b ++ (if ShaderType_eqb t FRAGMENT then line ++ nl else "").
Proof.
  intros Hs Ht. unfold pick, ss_put, ss_str.
  destruct (slots_ok_cases _ Hs) as [[Ev Ef]|[Ev Ef]];
    destruct t; try congruence; rewrite ?Ev, ?Ef; simpl;
    do 2 eexists; (split; [reflexivity|]);
    now rewrite !append_empty_r.
Qed.

Lemma run_lines_sections int_of lines :
  slots_ok int_of -> well_formed_markers lines = true ->
  forall t a b, t <> NONE ->
  exists t' a' b',
    run_lines int_of lines {| type := t; ss := [a; b] |} =
      Returns {| type := t'; ss := [a'; b'] |} /\
    pick int_of VERTEX a' b' =
      pick int_of VERTEX a b ++ section_text VERTEX (Some t) lines /\
    pick int_of FRAGMENT a' b' =
      pick int_of FRAGMENT a b ++ section_text FRAGMENT (Some t) lines.
Proof.
  intros Hs. induction lines as [|line rest IH]; intros Hwf t a b Ht.
  - exists t, a, b. simpl. now rewrite !append_empty_r.
  - simpl in Hwf. apply andb_true_iff in Hwf as [Hline Hrest].
    specialize (IH Hrest). cbn [run_lines section_text].
    unfold well_formed_line in Hline.
    destruct (marker_keyword line) as [k|] eqn:Ek.
    + destruct (marker_keyword_cases _ _ Ek) as [[-> ->]|[-> ->]].
      * rewrite loop_body_vertex by (vm_compute; congruence).
        simpl. apply IH. congruence.
      * rewrite loop_body_fragment by (vm_compute; congruence).
        simpl. apply IH. congruence.
    + rewrite orb_false_r in Hline. apply is_npos_true in Hline.
      rewrite loop_body_content by assumption. simpl.
      destruct (ss_put_pair int_of t a b line Hs Ht) as (a1 & b1 & -> & Hv & Hf).
      simpl.
      destruct (IH t a1 b1 Ht) as (t' & a' & b' & Hrun & Hv' & Hf').
      exists t', a', b'. split; [exact Hrun|].
      rewrite Hv', Hf', Hv, Hf, !append_assoc. now split.
Qed.

Lemma ss_str_pick int_of t a b :
  slots_ok int_of -> t <> NONE ->
  ss_str [a; b] (int_of t) = Returns (pick int_of t a b).
Proof.
  intros Hs Ht. unfold pick, ss_str.
  destruct (slots_ok_cases _ Hs) as [[Ev Ef]|[Ev Ef]];
    destruct t; try congruence; now rewrite ?Ev, ?Ef.
Qed.

Lemma section_text_first_marker want line rest :
  well_formed_line line = true -> find line "#shader" <> npos ->
  exists t, t <> NONE /\ marker_keyword line = Some t /\
            section_text want None (line :: rest) = section_text want (Some t) rest.
Proof.
  intros Hwf Hm. unfold well_formed_line in Hwf.
  apply is_npos_false in Hm. apply negb_true_iff in Hm. rewrite Hm in Hwf.
  simpl in *. destruct (marker_keyword line) as [t|] eqn:Ek; [|discriminate].
  exists t. split; [|now split].
  destruct (marker_keyword_cases _ _ Ek) as [[_ ->]|[_ ->]]; congruence.
Qed.

(** *** Theorems about [ParseShader] *)

Lemma lines_of_open fs filepath text :
  fs filepath = Some text ->
  lines_of (ifstream_open fs filepath) = text_lines text.
Proof. intros H. unfold ifstream_open, text_lines. now rewrite H. Qed.

Lemma lines_of_unopened fs filepath :
  fs filepath = None -> lines_of (ifstream_open fs filepath) = [].
Proof. intros H. unfold ifstream_open. rewrite H. apply lines_of_failed. Qed.

(** C1. With the two buffers in distinct slots of [ss] and the value of
    [NONE] outside the array, [ParseShader] on a text whose marker lines are
    well-formed returns, for each section, exactly the lines that followed
    that section's markers, in order, each with one newline, provided no
    content line comes before the first marker; when one does, the first
    write indexes [ss] out of bounds and the behaviour is undefined. *)
Theorem ParseShader_well_formed int_of fs filepath text :
  fs filepath = Some text ->
  well_formed_markers (text_lines text) = true ->
  slots_ok int_of ->
  in_bounds (int_of NONE) = false ->
  ParseShader int_of fs filepath =
  if stray_content (text_lines text) then Undefined
  else Returns
         {| VertexSource := section_text VERTEX None (text_lines text);
            FragmentSource := section_text FRAGMENT None (text_lines text) |}.
Proof.
  intros Hfile Hwf Hs Hnone.
  rewrite ParseShader_run_lines, (lines_of_open _ _ _ Hfile).
  destruct (text_lines text) as [|line rest].
  - simpl. rewrite !ss_str_pick by (assumption || congruence).
    unfold pick.
    now destruct (int_of VERTEX =? 0)%Z, (int_of FRAGMENT =? 0)%Z.
  - simpl in Hwf. apply andb_true_iff in Hwf as [Hline Hrest].
    cbn [stray_content run_lines].
    destruct (is_npos (find line "#shader")) eqn:Em.
    + apply is_npos_true in Em. rewrite loop_body_content by assumption.
      cbn [type ss]. now rewrite ss_put_out_of_bounds.
    + assert (Hm : find line "#shader" <> npos)
        by (apply is_npos_false; now rewrite Em).
      destruct (section_text_first_marker VERTEX line rest Hline Hm)
        as (t & Ht & Ek & Ev).
      destruct (section_text_first_marker FRAGMENT line rest Hline Hm)
        as (t2 & _ & Ek2 & Ef).
      assert (t2 = t) by congruence. subst t2. rewrite Ev, Ef.
      assert (Hstep : loop_body int_of line {| type := NONE; ss := [""; ""] |}
                      = Returns {| type := t; ss := [""; ""] |}).
      { destruct (marker_keyword_cases _ _ Ek) as [[-> ->]|[-> ->]].
        - now rewrite loop_body_vertex by (vm_compute; congruence).
        - now rewrite loop_body_fragment by (vm_compute; congruence). }
      rewrite Hstep. cbn [bind_outcome].
      destruct (run_lines_sections int_of rest Hs Hrest t "" "" Ht)
        as (t' & a' & b' & -> & Hv & Hf).
      cbn [bind_outcome ss].
      rewrite !ss_str_pick by (assumption || congruence).
      cbn [bind_outcome]. rewrite Hv, Hf. unfold pick.
      now destruct (int_of VERTEX =? 0)%Z, (int_of FRAGMENT =? 0)%Z.
Qed.

Lemma customary_slots_ok : slots_ok customary.
Proof. repeat split. discriminate. Qed.

Lemma ParseShader_well_formed_witness :
  one_file shader_path scenario shader_path = Some scenario /\
  well_formed_markers (text_lines scenario) = true /\
  slots_ok customary /\
  in_bounds (customary NONE) = false /\
  ParseShader customary (one_file shader_path scenario) shader_path =
  Returns {| VertexSource := "A" ++ nl; FragmentSource := "B" ++ nl |}.
Proof.
  split; [reflexivity|]. split; [reflexivity|].
  split; [exact customary_slots_ok|]. split; [reflexivity|].
  rewrite (ParseShader_well_formed customary (one_file shader_path scenario)
             shader_path scenario eq_refl eq_refl customary_slots_ok eq_refl).
  reflexivity.
Defined.

(** A section that is opened twice collects the lines of both stretches. *)
Example reopened_section_accumulates :
  ParseShader customary
    (one_file shader_path
       ("#shader vertex" ++ nl ++ "A" ++ nl ++ "#shader fragment" ++ nl
        ++ "B" ++ nl ++ "#shader vertex" ++ nl ++ "C" ++ nl))
    shader_path
  = Returns {| VertexSource := "A" ++ nl ++ "C" ++ nl;
               FragmentSource := "B" ++ nl |}.
Proof. reflexivity. Qed.

(** A last line without its newline still gets one. *)
Example unterminated_last_line :
  ParseShader customary
    (one_file shader_path ("#shader fragment" ++ nl ++ "B")) shader_path
  = Returns {| VertexSource := ""; FragmentSource := "B" ++ nl |}.
Proof. reflexivity. Qed.

(** The scenario with one content line ahead of the first marker. *)
Definition stray_scenario : string := "X" ++ nl ++ scenario.

Example stray_scenario_undefined :
  ParseShader customary (one_file shader_path stray_scenario) shader_path
  = Undefined.
Proof. reflexivity. Qed.

(** C2 (as stated, refuted).  Opening a path that cannot be read is not
    reported: [ParseShader] returns the ordinary pair of empty strings. *)
Lemma unreadable_file_is_silent :
  ~ (forall fs filepath, fs filepath = None ->
       ParseShader customary fs filepath
       <> Returns {| VertexSource := ""; FragmentSource := "" |}).
Proof.
  intros H. apply (H no_files shader_path eq_refl). reflexivity.
Qed.

(** C2 (amended).  When the file cannot be opened the loop body never runs
    and [ParseShader] returns the pair of empty strings, the very result it
    gives for a file that exists and is empty; no failure is signalled. *)
Theorem unreadable_file_reads_as_empty int_of fs filepath :
  fs filepath = None ->
  in_bounds (int_of VERTEX) = true ->
  in_bounds (int_of FRAGMENT) = true ->
  ParseShader int_of fs filepath
    = Returns {| VertexSource := ""; FragmentSource := "" |} /\
  ParseShader int_of fs filepath
    = ParseShader int_of (one_file filepath "") filepath.
Proof.
  intros Hnone Hv Hf.
  assert (E : forall lines, lines = [] ->
            bind_outcome (run_lines int_of lines {| type := NONE; ss := [""; ""] |})
              (fun l =>
               bind_outcome (ss_str (ss l) (int_of VERTEX)) (fun v =>
               bind_outcome (ss_str (ss l) (int_of FRAGMENT)) (fun f =>
               Returns {| VertexSource := v; FragmentSource := f |})))
            = Returns {| VertexSource := ""; FragmentSource := "" |}).
  { intros lines ->. simpl.
    destruct (slot_cases (int_of VERTEX)) as [[Ev|Ev]|Ev];
      destruct (slot_cases (int_of FRAGMENT)) as [[Ef|Ef]|Ef];
      try congruence; now rewrite Ev, Ef. }
  rewrite !ParseShader_run_lines.
  rewrite !E; [now split | | now apply lines_of_unopened].
  unfold ifstream_open, one_file. rewrite String.eqb_refl.
  now rewrite lines_of_step.
Qed.

Lemma unreadable_file_reads_as_empty_witness :
  no_files shader_path = None /\
  in_bounds (customary VERTEX) = true /\
  in_bounds (customary FRAGMENT) = true /\
  ParseShader customary no_files shader_path
    = Returns {| VertexSource := ""; FragmentSource := "" |}.
Proof.
  split; [reflexivity|]. split; [reflexivity|]. split; [reflexivity|].
  exact (proj1 (unreadable_file_reads_as_empty customary no_files shader_path
                  eq_refl eq_refl eq_refl)).
Defined.

(** C3.  With the value of [NONE] outside the two-element array, a content
    line ahead of the first marker is not absorbed anywhere: the write
    [ss[(int)type]] is out of bounds and the behaviour is undefined. *)
Theorem stray_content_not_absorbed int_of fs filepath text :
  fs filepath = Some text ->
  stray_content (text_lines text) = true ->
  in_bounds (int_of NONE) = false ->
  ParseShader int_of fs filepath = Undefined.
Proof.
  intros Hfile Hstray Hnone.
  rewrite ParseShader_run_lines, (lines_of_open _ _ _ Hfile).
  destruct (text_lines text) as [|line rest]; [discriminate|].
  simpl in Hstray. apply is_npos_true in Hstray.
  cbn [run_lines]. rewrite loop_body_content by assumption.
  cbn [type ss]. now rewrite ss_put_out_of_bounds.
Qed.

Lemma stray_content_not_absorbed_witness :
  one_file shader_path stray_scenario shader_path = Some stray_scenario /\
  stray_content (text_lines stray_scenario) = true /\
  in_bounds (customary NONE) = false /\
  ParseShader customary (one_file shader_path stray_scenario) shader_path
  = Undefined.
Proof.
  split; [reflexivity|]. split; [reflexivity|]. split; [reflexivity|].
  exact (stray_content_not_absorbed customary
           (one_file shader_path stray_scenario) shader_path stray_scenario
           eq_refl eq_refl eq_refl).
Defined.

(** *** Every declaration of the enumerators *)

(** The declaration with the three given values. *)
Definition declared (n v f : Z) (t : ShaderType) : Z :=
  match t with NONE => n | VERTEX => v | FRAGMENT => f end.

Lemma loop_body_ext f g line l :
  (forall t, f t = g t) -> loop_body f line l = loop_body g line l.
Proof. intros H. unfold loop_body. now rewrite H. Qed.

Lemma run_lines_ext f g lines l :
  (forall t, f t = g t) -> run_lines f lines l = run_lines g lines l.
Proof.
  intros H. revert l. induction lines as [|line rest IH]; intros l; simpl.
  - reflexivity.
  - rewrite (loop_body_ext f g line l H).
    destruct (loop_body g line l); simpl; [apply IH | reflexivity].
Qed.

Lemma ParseShader_ext f g fs filepath :
  (forall t, f t = g t) -> ParseShader f fs filepath = ParseShader g fs filepath.
Proof.
  intros H. rewrite !ParseShader_run_lines.
  rewrite (run_lines_ext f g _ _ H). now rewrite !H.
Qed.

Lemma ParseShader_declared int_of fs filepath :
  ParseShader int_of fs filepath =
  ParseShader (declared (int_of NONE) (int_of VERTEX) (int_of FRAGMENT))
    fs filepath.
Proof. apply ParseShader_ext. now intros []. Qed.

(** [ParseShader] reads both buffers on its way out, so it returns only
    when both enumerators index inside the array. *)
Lemma ParseShader_returns_in_bounds int_of fs filepath src :
  ParseShader int_of fs filepath = Returns src ->
  in_bounds (int_of VERTEX) = true /\ in_bounds (int_of FRAGMENT) = true.
Proof.
  unfold ParseShader.
  destruct (while_getline _ _ _) as [l|]; simpl; [|discriminate].
  unfold ss_str.
  destruct (in_bounds (int_of VERTEX)); [|discriminate].
  destruct (nth_error _ _); simpl; [|discriminate].
  destruct (in_bounds (int_of FRAGMENT)); [|discriminate].
  now split.
Qed.

Lemma scenario_needs_slots int_of :
  ParseShader int_of (one_file shader_path scenario) shader_path
    = Returns {| VertexSource := "A" ++ nl; FragmentSource := "B" ++ nl |} ->
  slots_ok int_of.
Proof.
  intros H. destruct (ParseShader_returns_in_bounds _ _ _ _ H) as [Hv Hf].
  repeat split; try assumption. intros E.
  rewrite ParseShader_declared, <- E in H.
  destruct (slot_cases (int_of VERTEX)) as [[Ev|Ev]|Ev];
    try congruence; rewrite Ev in H; vm_compute in H; discriminate.
Qed.

(** C4.  A text with content and no marker line does not come out as two
    empty strings.  Under the customary declaration the first write is out
    of bounds; and under any declaration for which the documented scenario
    splits as documented, the result is not the pair of empty strings. *)
Theorem content_without_marker_not_dropped :
  ParseShader customary (one_file shader_path ("X" ++ nl)) shader_path
    = Undefined /\
  forall int_of,
    ParseShader int_of (one_file shader_path scenario) shader_path
      = Returns {| VertexSource := "A" ++ nl; FragmentSource := "B" ++ nl |} ->
    ParseShader int_of (one_file shader_path ("X" ++ nl)) shader_path
      <> Returns {| VertexSource := ""; FragmentSource := "" |}.
Proof.
  split; [reflexivity|].
  intros int_of Hscn. apply scenario_needs_slots in Hscn.
  destruct (slot_cases (int_of NONE)) as [[En|En]|En].
  - rewrite ParseShader_declared, En.
    destruct (slots_ok_cases _ Hscn) as [[-> ->]|[-> ->]];
      vm_compute; discriminate.
  - rewrite ParseShader_declared, En.
    destruct (slots_ok_cases _ Hscn) as [[-> ->]|[-> ->]];
      vm_compute; discriminate.
  - rewrite (stray_content_not_absorbed int_of _ _ ("X" ++ nl));
      [discriminate | reflexivity | reflexivity | assumption].
Qed.

Lemma content_without_marker_not_dropped_witness :
  ParseShader customary (one_file shader_path scenario) shader_path
    = Returns {| VertexSource := "A" ++ nl; FragmentSource := "B" ++ nl |} /\
  ParseShader customary (one_file shader_path ("X" ++ nl)) shader_path
    <> Returns {| VertexSource := ""; FragmentSource := "" |}.
Proof.
  split; [reflexivity|].
  exact (proj2 content_without_marker_not_dropped customary eq_refl).
Defined.

(** The same for the scenario with a stray first line: no declaration of
    the enumerators makes both it and the documented scenario come out as
    documented. *)
Lemma stray_scenario_every_declaration int_of :
  ParseShader int_of (one_file shader_path scenario) shader_path
    = Returns {| VertexSource := "A" ++ nl; FragmentSource := "B" ++ nl |} ->
  ParseShader int_of (one_file shader_path stray_scenario) shader_path
    <> Returns {| VertexSource := "A" ++ nl; FragmentSource := "B" ++ nl |}.
Proof.
  intros Hscn. apply scenario_needs_slots in Hscn.
  destruct (slot_cases (int_of NONE)) as [[En|En]|En].
  - rewrite ParseShader_declared, En.
    destruct (slots_ok_cases _ Hscn) as [[-> ->]|[-> ->]];
      vm_compute; discriminate.
  - rewrite ParseShader_declared, En.
    destruct (slots_ok_cases _ Hscn) as [[-> ->]|[-> ->]];
      vm_compute; discriminate.
  - rewrite (stray_content_not_absorbed int_of _ _ stray_scenario);
      [discriminate | reflexivity | reflexivity | assumption].
Qed.

(** *** Marker lines *)

(** The section a marker line selects, given the current one. *)
Definition selected (line : string) (current : ShaderType) : ShaderType :=
  if negb (is_npos (find line "vertex")) then VERTEX
  else if negb (is_npos (find line "fragment")) then FRAGMENT
  else current.

Lemma loop_body_marker int_of line l :
  find line "#shader" <> npos ->
  loop_body int_of line l =
  Returns {| type := selected line (type l); ss := ss l |}.
Proof.
  intros H. apply is_npos_false in H. unfold loop_body, selected. rewrite H.
  destruct (negb (is_npos (find line "vertex"))); [reflexivity|].
  destruct (negb (is_npos (find line "fragment"))); [reflexivity|].
  now destruct l.
Qed.



(** C10.  Any line in which [#shader] occurs, wherever and whatever else
    the line holds, is taken as a marker: the pass over it writes to no
    buffer.  The section it selects is [VERTEX] as soon as [vertex] occurs
    in the line, also when [fragment] occurs in it too. *)
Theorem marker_by_substring int_of pre post l :
  let line := pre ++ "#shader" ++ post in
  exists t,
    loop_body int_of line l = Returns {| type := t; ss := ss l |} /\
    (occurs "vertex" line -> t = VERTEX) /\
    (occurs "vertex" line -> occurs "fragment" line -> t = VERTEX) /\
    (~ occurs "vertex" line -> occurs "fragment" line -> t = FRAGMENT).
Proof.
  intros line.
  assert (Hm : find line "#shader" <> npos)
    by (apply find_occurrence; discriminate).
  exists (selected line (type l)). split; [now apply loop_body_marker|].
  assert (Hv : occurs "vertex" line -> selected line (type l) = VERTEX).
  { intros Ho. apply occurs_found in Ho; [|discriminate].
    apply is_npos_false in Ho. unfold selected. now rewrite Ho. }
  split; [exact Hv|]. split; [auto|].
  intros Hnv Hf. unfold selected.
  destruct (find line "vertex") eqn:Ev.
  - destruct Hnv. apply found_occurs. unfold npos. congruence.
  - apply occurs_found in Hf; [|discriminate].
    apply is_npos_false in Hf. simpl. now rewrite Hf.
Qed.

(** An ordinary line of shader code that happens to mention the token, and
    a file in which such a line redirects what follows. *)
Example comment_line_is_a_marker :
  loop_body customary "gl_Position = p; // #shader fragment, then vertex"
    {| type := FRAGMENT; ss := [""; ""] |}
  = Returns {| type := VERTEX; ss := [""; ""] |}.
Proof. reflexivity. Qed.

Lemma marker_by_substring_witness :
  loop_body customary
    ("gl_Position = p; // " ++ "#shader" ++ " fragment, then vertex")
    {| type := FRAGMENT; ss := ["A" ++ nl; "B" ++ nl] |}
  = Returns {| type := VERTEX; ss := ["A" ++ nl; "B" ++ nl] |}.
Proof.
  destruct (marker_by_substring customary
              "gl_Position = p; // " " fragment, then vertex"
              {| type := FRAGMENT; ss := ["A" ++ nl; "B" ++ nl] |})
    as (t & Hrun & Hvertex & _).
  rewrite Hrun. f_equal. f_equal. apply Hvertex.
  exists "gl_Position = p; // #shader fragment, then ", "". reflexivity.
Defined.

End SplitterSpec.

(* ====================================================================== *)
Module BuilderSpec.

Import Splitter.
Import Float32.
Import Builder.
Open Scope string_scope.
Open Scope Z_scope.

(** A call that resolves a uniform name. *)
Definition resolves (c : call) : bool :=
  match c with glGetUniformLocation _ _ => true | _ => false end.

(** A call that sets the colour uniform at a location other than [loc]. *)
Definition sets_elsewhere (loc : Z) (c : call) : bool :=
  match c with glUniform4f l _ _ _ _ => negb (l =? loc) | _ => false end.

(** *** The colour cycle *)

(** The pair ([r], [m_Increment]) after one more frame. *)
Definition cycle_step (s : float * float) : float * float :=
  color_cycle (fst s) (snd s).

(** The pair after [n] frames. *)
Fixpoint cycle (n : nat) (s : float * float) : float * float :=
  match n with
  | O => s
  | S n' => cycle_step (cycle n' s)
  end.

(** The pair after [n] frames of a fresh [Application]: [r] starts at
    [0.0f], [m_Increment] at [0.05f]. *)
Definition state (n : nat) : float * float := cycle n (f0_0, f0_05).

(** The calls of one frame that draws with red channel [red]. *)
Definition frame_calls (app : Application) (red : float) : list call :=
  [glUseProgram (m_Shader app);
   glUniform4f (m_UniformLoc app) red f0_3 f0_8 f1_0;
   VertexArray_Bind (va app);
   IndexBuffer_Bind (ib app);
   glDrawElements GL_TRIANGLES 6 GL_UNSIGNED_INT].

(** The calls of [n] frames from the pair [s]. *)
Definition frames_calls (app : Application) (s : float * float) (n : nat)
  : list call :=
  flat_map (fun k => frame_calls app (fst (cycle k s))) (seq 0 n).

(** [a] and [b] hold the same handles. *)
Definition same_handles (a b : Application) : Prop :=
  m_Shader a = m_Shader b /\ m_UniformLoc a = m_UniformLoc b /\
  va a = va b /\ vb a = vb b /\ ib a = ib b.

Lemma frame_calls_same a b red :
  same_handles a b -> frame_calls a red = frame_calls b red.
Proof. intros (H1 & H2 & H3 & _ & H5). unfold frame_calls. congruence. Qed.

(** A statement that makes one call: wrapped in [CALL] at a line of the
    source, or bare. *)
Inductive stmt : Type :=
| checked (line : Z) (c : call)
| bare (c : call).

Definition call_of (s : stmt) : call :=
  match s with checked _ c | bare c => c end.

Create HintDb only.
Create HintDb quiet.
Create HintDb steady.

Section Facts.

Variable Driver : Type.
Variable gl : call -> Driver -> reply * Driver.
Variable int_of : ShaderType -> Z.
Variable files : filesystem.

Abbreviation World := (Builder.World Driver).
Abbreviation M := (Builder.M Driver).

(** The world once call [c] has been answered by [rep], leaving the
    implementation in state [d]. *)
Definition logged (c : call) (rep : reply) (d : Driver) (w : World) : World :=
  {| driver := d; calls := (calls w ++ [(c, rep)])%list;
     cout := cout w; r := r w; surfaced := surfaced w; debug := debug w |}.

(** The world once the error that [rep] carries has been surfaced. *)
Definition noted (line : Z) (c : call) (rep : reply) (w : World) : World :=
  {| driver := driver w; calls := calls w; cout := cout w; r := r w;
     surfaced := (surfaced w ++ [(line, c, rep)])%list; debug := debug w |}.

(** The world after the call and the check of [CALL]. *)
Definition checked_world (line : Z) (c : call) (rep : reply) (d : Driver)
  (w : World) : World :=
  if gl_error rep then noted line c rep (logged c rep d w)
  else logged c rep d w.

Definition run_stmt (s : stmt) : M reply :=
  match s with
  | checked line c => CALL gl line c
  | bare c => invoke gl c
  end.

(** The statements [ss] one after the other, then [k]. *)
Fixpoint seq_then {A} (ss : list stmt) (k : M A) : M A :=
  match ss with
  | [] => k
  | s :: ss' => bind (run_stmt s) (fun _ => seq_then ss' k)
  end.

(** The answers of the implementation to the calls of [ss] made one after
    the other from state [d].  With the debug assertion active ([dbg]) the
    sequence ends with the first checked call that leaves an error behind;
    without it every call is made.  The result is the trace, what the
    checks surfaced, the state reached, and whether the end of [ss] was
    reached. *)
Fixpoint replay (dbg : bool) (d : Driver) (ss : list stmt)
  : list (call * reply) * list (Z * call * reply) * Driver * bool :=
  match ss with
  | [] => ([], [], d, true)
  | s :: ss' =>
      let (rep, d1) := gl (call_of s) d in
      match s with
      | checked line c =>
          if gl_error rep then
            if dbg then ([(c, rep)], [(line, c, rep)], d1, false)
            else
              let '(tr, sf, d2, ok) := replay dbg d1 ss' in
              ((c, rep) :: tr, (line, c, rep) :: sf, d2, ok)
          else
            let '(tr, sf, d2, ok) := replay dbg d1 ss' in
            ((c, rep) :: tr, sf, d2, ok)
      | bare c =>
          let '(tr, sf, d2, ok) := replay dbg d1 ss' in
          ((c, rep) :: tr, sf, d2, ok)
      end
  end.

(** How a run ends after its last checked call. *)
Definition finish {A} (ok : bool) (a : A) (w : World) : run Driver A :=
  if ok then Done a w else Halted w.

(** The calls logged, and what was printed, when a run ends. *)
Definition calls_of {A} (x : run Driver A) : list (call * reply) :=
  match x with
  | Done _ w | Halted w => calls w
  | Undef => []
  end.

Definition cout_of {A} (x : run Driver A) : string :=
  match x with
  | Done _ w | Halted w => cout w
  | Undef => ""
  end.

Lemma replay_prefix dbg ss : forall d tr sf d' ok,
  replay dbg d ss = (tr, sf, d', ok) ->
  map fst tr = firstn (length tr) (map call_of ss).
Proof.
  induction ss as [|s ss IH]; intros d tr sf d' ok; cbn [replay].
  - now intros [= <- _ _ _].
  - destruct (gl (call_of s) d) as [rep d1].
    destruct (replay dbg d1 ss) as [[[tr1 sf1] d2] ok1] eqn:E.
    specialize (IH _ _ _ _ _ E).
    destruct s as [line c|c]; cbn [call_of map];
      [destruct (gl_error rep); [destruct dbg|]|];
      intros [= <- _ _ _]; cbn [length firstn map fst]; congruence.
Qed.

Lemma replay_first dbg s ss d tr sf d' ok :
  replay dbg d (s :: ss) = (tr, sf, d', ok) -> (1 <= length tr)%nat.
Proof.
  cbn [replay]. destruct (gl (call_of s) d) as [rep d1].
  destruct (replay dbg d1 ss) as [[[tr1 sf1] d2] ok1].
  destruct s as [line c|c];
    [destruct (gl_error rep); [destruct dbg|]|];
    intros [= <- _ _ _]; cbn [length]; lia.
Qed.

Lemma replay_complete dbg ss : forall d tr sf d',
  replay dbg d ss = (tr, sf, d', true) -> map fst tr = map call_of ss.
Proof.
  induction ss as [|s ss IH]; intros d tr sf d'; cbn [replay].
  - now intros [= <- _ _].
  - destruct (gl (call_of s) d) as [rep d1].
    destruct (replay dbg d1 ss) as [[[tr1 sf1] d2] ok1] eqn:E.
    destruct s as [line c|c]; cbn [call_of map];
      [destruct (gl_error rep); [destruct dbg|]|];
      intros [= <- _ _ E']; try discriminate; subst ok1;
      cbn [map fst]; f_equal; eapply IH; eassumption.
Qed.

(** Without the debug assertion nothing cuts the sequence short. *)
Lemma replay_release ss : forall d tr sf d' ok,
  replay false d ss = (tr, sf, d', ok) -> ok = true.
Proof.
  induction ss as [|s ss IH]; intros d tr sf d' ok; cbn [replay].
  - now intros [= _ _ _ <-].
  - destruct (gl (call_of s) d) as [rep d1].
    destruct (replay false d1 ss) as [[[tr1 sf1] d2] ok1] eqn:E.
    specialize (IH _ _ _ _ _ E).
    destruct s as [line c|c]; [destruct (gl_error rep)|];
      intros [= _ _ _ <-]; exact IH.
Qed.

Lemma invoke_logged c w rep d :
  gl c (driver w) = (rep, d) -> invoke gl c w = Done rep (logged c rep d w).
Proof. intros H. unfold invoke. now rewrite H. Qed.

(** [CALL]: the call is made and logged, a flagged error is surfaced, and
    the run stops there when the debug assertion is active. *)
Lemma CALL_outcome line c w rep d :
  gl c (driver w) = (rep, d) ->
  CALL gl line c w =
  if gl_error rep && debug w then Halted (checked_world line c rep d w)
  else Done rep (checked_world line c rep d w).
Proof.
  intros H. unfold CALL, bind. rewrite (invoke_logged _ _ _ _ H).
  unfold checked_world. destruct (gl_error rep); [|reflexivity].
  unfold surface, noted. cbn [driver calls cout r surfaced debug logged andb].
  now destruct (debug w).
Qed.

Lemma CALL_logged line c w rep d :
  gl c (driver w) = (rep, d) -> gl_error rep = false ->
  CALL gl line c w = Done rep (logged c rep d w).
Proof.
  intros H E. rewrite (CALL_outcome _ _ _ _ _ H). unfold checked_world.
  now rewrite E.
Qed.

Lemma invoke_at c d0 cs co r0 sf dbg rep d :
  gl c d0 = (rep, d) ->
  invoke gl c {| driver := d0; calls := cs; cout := co; r := r0;
                 surfaced := sf; debug := dbg |} =
  Done rep {| driver := d; calls := (cs ++ [(c, rep)])%list;
              cout := co; r := r0; surfaced := sf; debug := dbg |}.
Proof. intros H. now rewrite (invoke_logged _ _ rep d). Qed.

Lemma CALL_at line c d0 cs co r0 sf dbg rep d :
  gl c d0 = (rep, d) -> gl_error rep = false ->
  CALL gl line c {| driver := d0; calls := cs; cout := co; r := r0;
                    surfaced := sf; debug := dbg |} =
  Done rep {| driver := d; calls := (cs ++ [(c, rep)])%list;
              cout := co; r := r0; surfaced := sf; debug := dbg |}.
Proof. intros H E. now rewrite (CALL_logged _ _ _ rep d). Qed.

(** One step of a run whose next call is answered as a hypothesis says. *)
Ltac run_step :=
  unfold bind at 1;
  first
    [ erewrite CALL_at; [|eassumption|eassumption]
    | erewrite invoke_at; [|eassumption]
    | unfold print at 1
    | unfold ret at 1 ];
  cbv beta iota.

Lemma bind_assoc {A B C} (m : M A) (k1 : A -> M B) (k2 : B -> M C) w :
  bind (bind m k1) k2 w = bind m (fun a => bind (k1 a) k2) w.
Proof. unfold bind. now destruct (m w). Qed.

Lemma seq_then_replay {A} ss (k : M A) : forall w tr sf d' ok,
  replay (debug w) (driver w) ss = (tr, sf, d', ok) ->
  let w' := {| driver := d'; calls := (calls w ++ tr)%list; cout := cout w;
               r := r w; surfaced := (surfaced w ++ sf)%list;
               debug := debug w |} in
  seq_then ss k w = if ok then k w' else Halted w'.
Proof.
  induction ss as [|s ss IH]; intros w tr sf d' ok; cbn [replay seq_then].
  - intros [= <- <- <- <-]. cbv zeta. rewrite !app_nil_r. now destruct w.
  - destruct (gl (call_of s) (driver w)) as [rep d1] eqn:G.
    destruct s as [line c|c]; cbn [call_of run_stmt] in *; unfold bind.
    + rewrite (CALL_outcome _ _ _ _ _ G). unfold checked_world.
      destruct (gl_error rep); cbn [andb].
      * destruct (debug w) eqn:Ed.
        { intros [= <- <- <- <-]. cbv zeta. unfold noted, logged.
          cbn [driver calls cout r surfaced debug]. now rewrite Ed. }
        { destruct (replay false d1 ss) as [[[tr1 sf1] d2] ok1] eqn:E.
          intros [= <- <- <- <-].
          rewrite (IH (noted line c rep (logged c rep d1 w)) tr1 sf1 d2 ok1)
            by (cbn [noted logged driver debug]; now rewrite Ed).
          cbv zeta. cbn [noted logged driver calls cout r surfaced debug].
          now rewrite Ed, <- !app_assoc. }
      * destruct (replay (debug w) d1 ss) as [[[tr1 sf1] d2] ok1] eqn:E.
        intros [= <- <- <- <-].
        rewrite (IH (logged c rep d1 w) tr1 sf1 d2 ok1) by exact E.
        cbv zeta. cbn [logged driver calls cout r surfaced debug].
        now rewrite <- !app_assoc.
    + rewrite (invoke_logged _ _ _ _ G).
      destruct (replay (debug w) d1 ss) as [[[tr1 sf1] d2] ok1] eqn:E.
      intros [= <- <- <- <-].
      rewrite (IH (logged c rep d1 w) tr1 sf1 d2 ok1) by exact E.
      cbv zeta. cbn [logged driver calls cout r surfaced debug].
      now rewrite <- !app_assoc.
Qed.

(** *** Runs that only add calls *)

(** [w'] is [w] after some more calls, with [r] and the debug assertion as
    they were. *)
Definition later (w w' : World) : Prop :=
  r w' = r w /\ debug w' = debug w /\
  exists tr, calls w' = (calls w ++ tr)%list.

Lemma later_refl w : later w w.
Proof. repeat split. exists []. now rewrite app_nil_r. Qed.

Lemma later_trans w1 w2 w3 : later w1 w2 -> later w2 w3 -> later w1 w3.
Proof.
  intros (R1 & D1 & t1 & E1) (R2 & D2 & t2 & E2).
  split; [congruence|]. split; [congruence|].
  exists (t1 ++ t2)%list. now rewrite E2, E1, app_assoc.
Qed.

(** Wherever a run of [m] stops, it has only added calls. *)
Definition steady {A} (m : M A) : Prop :=
  forall w,
    match m w with
    | Done _ w' | Halted w' => later w w'
    | Undef => True
    end.

(** [m] is never undefined, prints nothing and only adds calls. *)
Definition quiet {A} (m : M A) : Prop :=
  forall w,
    match m w with
    | Done _ w' | Halted w' => later w w' /\ cout w' = cout w
    | Undef => False
    end.

Lemma quiet_steady {A} (m : M A) : quiet m -> steady m.
Proof.
  intros H w. specialize (H w).
  destruct (m w); [exact (proj1 H)|exact (proj1 H)|exact I].
Qed.

Lemma steady_ret {A} (a : A) : steady (ret a).
Proof. intros w. apply later_refl. Qed.

Lemma steady_bind {A B} (m : M A) (k : A -> M B) :
  steady m -> (forall a, steady (k a)) -> steady (bind m k).
Proof.
  intros Hm Hk w. unfold bind. specialize (Hm w).
  destruct (m w) as [a w1| w1 |]; [|exact Hm|exact I].
  specialize (Hk a w1).
  destruct (k a w1) as [b w2| w2 |]; [| |exact I];
    eapply later_trans; eassumption.
Qed.

Lemma quiet_ret {A} (a : A) : quiet (ret a).
Proof. intros w. split; [apply later_refl | reflexivity]. Qed.

Lemma quiet_bind {A B} (m : M A) (k : A -> M B) :
  quiet m -> (forall a, quiet (k a)) -> quiet (bind m k).
Proof.
  intros Hm Hk w. unfold bind. specialize (Hm w).
  destruct (m w) as [a w1| w1 |]; [|exact Hm|exact Hm].
  specialize (Hk a w1). destruct Hm as [L1 C1].
  destruct (k a w1) as [b w2| w2 |]; [| |exact Hk];
    destruct Hk as [L2 C2];
    (split; [eapply later_trans; eassumption | congruence]).
Qed.

Lemma quiet_invoke c : quiet (invoke gl c).
Proof.
  intros w. unfold invoke. destruct (gl c (driver w)) as [rep d].
  repeat split. now exists [(c, rep)].
Qed.

Lemma quiet_ASSERT b : quiet (ASSERT (Driver := Driver) b).
Proof.
  intros w. unfold ASSERT.
  destruct b; (split; [apply later_refl | reflexivity]).
Qed.

Lemma quiet_CALL line c : quiet (CALL gl line c).
Proof.
  intros w. destruct (gl c (driver w)) as [rep d] eqn:G.
  rewrite (CALL_outcome _ _ _ _ _ G).
  unfold checked_world, noted, logged, later.
  destruct (gl_error rep), (debug w) eqn:Ed;
    cbn [andb driver calls cout r surfaced debug]; rewrite ?Ed;
    (split; [|reflexivity]);
    (split; [reflexivity|]); (split; [reflexivity|]);
    now exists [(c, rep)].
Qed.

Lemma steady_print s : steady (print (Driver := Driver) s).
Proof.
  intros w. unfold print. repeat split. exists []. cbn. now rewrite app_nil_r.
Qed.

Lemma steady_lift {A} (o : outcome A) : steady (lift (Driver := Driver) o).
Proof. intros w. unfold lift. destruct o; [apply later_refl | exact I]. Qed.

#[local] Hint Resolve quiet_ret quiet_invoke quiet_ASSERT quiet_CALL : quiet.
#[local] Hint Extern 2 (quiet (bind _ _)) =>
  apply quiet_bind; [|intros ?] : quiet.

#[local] Hint Resolve steady_ret steady_print steady_lift : steady.
#[local] Hint Extern 1 (steady (invoke _ _)) =>
  apply quiet_steady, quiet_invoke : steady.
#[local] Hint Extern 1 (steady (CALL _ _ _)) =>
  apply quiet_steady, quiet_CALL : steady.
#[local] Hint Extern 1 (steady (ASSERT _)) =>
  apply quiet_steady, quiet_ASSERT : steady.
#[local] Hint Extern 2 (steady (bind _ _)) =>
  apply steady_bind; [|intros ?] : steady.
#[local] Hint Extern 3 (steady (if ?b then _ else _)) => destruct b : steady.

Lemma steady_CompileShader type source : steady (CompileShader gl type source).
Proof. unfold CompileShader. auto 30 with steady. Qed.

Lemma steady_CreateShader vertexShader fragmentShader :
  steady (CreateShader gl vertexShader fragmentShader).
Proof.
  unfold CreateShader.
  apply steady_bind; [auto with steady|]. intros program_r.
  apply steady_bind; [apply steady_CompileShader|]. intros vs.
  apply steady_bind; [apply steady_CompileShader|]. intros fs.
  auto 30 with steady.
Qed.

(** A checked call followed by a quiet rest: the call is in the log, and
    nothing is printed. *)
Lemma CALL_then_quiet {A} line c (k : reply -> M A) w :
  (forall rep, quiet (k rep)) ->
  exists tr,
    calls_of (bind (CALL gl line c) k w) =
    (calls w ++ (c, fst (gl c (driver w))) :: tr)%list /\
    cout_of (bind (CALL gl line c) k w) = cout w /\
    bind (CALL gl line c) k w <> Undef.
Proof.
  intros Hk. unfold bind.
  destruct (gl c (driver w)) as [rep d] eqn:G.
  rewrite (CALL_outcome _ _ _ _ _ G). cbn [fst].
  assert (Hc : calls (checked_world line c rep d w)
               = (calls w ++ [(c, rep)])%list)
    by (unfold checked_world; now destruct (gl_error rep)).
  assert (Ho : cout (checked_world line c rep d w) = cout w)
    by (unfold checked_world; now destruct (gl_error rep)).
  destruct (gl_error rep && debug w).
  - exists []. cbn [calls_of cout_of]. now rewrite Hc, Ho.
  - specialize (Hk rep (checked_world line c rep d w)).
    destruct (k rep _) as [a w2| w2 |]; [| |contradiction];
      destruct Hk as [(_ & _ & tr & E) C]; exists tr;
      cbn [calls_of cout_of]; rewrite E, C, Hc, Ho, <- app_assoc;
      now repeat split.
Qed.

(** *** CompileShader and CreateShader *)

(** What [CompileShader] prints when the compilation of a unit fails. *)
Definition failure_report (type : Z) (message : string) : string :=
  ("Failed to compile "
   ++ (if type =? GL_VERTEX_SHADER then "vertex" else "fragment")
   ++ " shader!" ++ nl)
  ++ (message ++ nl).

Lemma CompileShader_failure type source w
  r_id d1 r_src d2 r_cmp d3 r_st d4 r_len d5 r_log d6 r_del d7 message :
  gl (glCreateShader type) (driver w) = (r_id, d1) ->
  gl (glShaderSource (value r_id) 1 source) d1 = (r_src, d2) ->
  gl (glCompileShader (value r_id)) d2 = (r_cmp, d3) ->
  gl (glGetShaderiv (value r_id) GL_COMPILE_STATUS) d3 = (r_st, d4) ->
  value r_st = GL_FALSE ->
  gl (glGetShaderiv (value r_id) GL_INFO_LOG_LENGTH) d4 = (r_len, d5) ->
  gl (glGetShaderInfoLog (value r_id) (value r_len)) d5 = (r_log, d6) ->
  gl (glDeleteShader (value r_id)) d6 = (r_del, d7) ->
  gl_error r_src = false -> gl_error r_cmp = false ->
  gl_error r_st = false -> gl_error r_len = false ->
  gl_error r_log = false -> gl_error r_del = false ->
  message_in (value r_len) r_log = Returns message ->
  CompileShader gl type source w =
  Done 0
    {| driver := d7;
       calls := (calls w ++
                 [(glCreateShader type, r_id);
                  (glShaderSource (value r_id) 1 source, r_src);
                  (glCompileShader (value r_id), r_cmp);
                  (glGetShaderiv (value r_id) GL_COMPILE_STATUS, r_st);
                  (glGetShaderiv (value r_id) GL_INFO_LOG_LENGTH, r_len);
                  (glGetShaderInfoLog (value r_id) (value r_len), r_log);
                  (glDeleteShader (value r_id), r_del)])%list;
       cout := (cout w ++ failure_report type message)%string;
       r := r w; surfaced := surfaced w; debug := debug w |}.
Proof.
  intros H1 H2 H3 H4 Hst H5 H6 H7 E2 E3 E4 E5 E6 E7 Hm.
  destruct w as [d0 cs co r0 sf0 dbg]. cbn [driver calls cout r surfaced debug] in *.
  unfold CompileShader.
  do 4 run_step.
  unfold bind at 1. unfold lift at 1, out_value at 1. rewrite E4, Hst.
  change (GL_FALSE =? GL_FALSE) with true. cbv beta iota.
  run_step.
  unfold bind at 1. unfold lift at 1, out_value at 1. rewrite E5.
  cbv beta iota.
  do 2 run_step.
  unfold bind at 1. unfold lift at 1. rewrite Hm. cbv beta iota.
  do 2 run_step.
  unfold ret. cbn [driver calls cout r surfaced debug]. unfold failure_report.
  f_equal. f_equal.
  - now rewrite <- !app_assoc.
  - now rewrite append_assoc.
Qed.

Lemma CompileShader_unwritten_log type source w
  r_id d1 r_src d2 r_cmp d3 r_st d4 r_len d5 r_log d6 :
  gl (glCreateShader type) (driver w) = (r_id, d1) ->
  gl (glShaderSource (value r_id) 1 source) d1 = (r_src, d2) ->
  gl (glCompileShader (value r_id)) d2 = (r_cmp, d3) ->
  gl (glGetShaderiv (value r_id) GL_COMPILE_STATUS) d3 = (r_st, d4) ->
  value r_st = GL_FALSE ->
  gl (glGetShaderiv (value r_id) GL_INFO_LOG_LENGTH) d4 = (r_len, d5) ->
  gl (glGetShaderInfoLog (value r_id) (value r_len)) d5 = (r_log, d6) ->
  gl_error r_src = false -> gl_error r_cmp = false ->
  gl_error r_st = false -> gl_error r_len = false ->
  gl_error r_log = false ->
  message_in (value r_len) r_log = Undefined ->
  CompileShader gl type source w = Undef.
Proof.
  intros H1 H2 H3 H4 Hst H5 H6 E2 E3 E4 E5 E6 Hm.
  destruct w as [d0 cs co r0 sf0 dbg]. cbn [driver calls cout r surfaced debug] in *.
  unfold CompileShader.
  do 4 run_step.
  unfold bind at 1. unfold lift at 1, out_value at 1. rewrite E4, Hst.
  change (GL_FALSE =? GL_FALSE) with true. cbv beta iota.
  run_step.
  unfold bind at 1. unfold lift at 1, out_value at 1. rewrite E5.
  cbv beta iota.
  do 2 run_step.
  unfold bind at 1. unfold lift at 1. now rewrite Hm.
Qed.

(** The six statements of [CreateShader] that follow the two
    compilations. *)
Definition after_compiling (program vs fs : Z) : list stmt :=
  [checked 98 (glAttachShader program vs);
   checked 99 (glAttachShader program fs);
   checked 103 (glLinkProgram program);
   checked 107 (glValidateProgram program);
   checked 112 (glDeleteShader vs);
   checked 113 (glDeleteShader fs)].

Lemma CreateShader_after_compiling vertexShader fragmentShader
  w r_p w1 vs w2 fs w3 :
  invoke gl glCreateProgram w = Done r_p w1 ->
  CompileShader gl GL_VERTEX_SHADER vertexShader w1 = Done vs w2 ->
  CompileShader gl GL_FRAGMENT_SHADER fragmentShader w2 = Done fs w3 ->
  CreateShader gl vertexShader fragmentShader w =
  seq_then (after_compiling (value r_p) vs fs) (ret (value r_p)) w3.
Proof.
  intros Hp Hvs Hfs. unfold CreateShader.
  unfold bind at 1. rewrite Hp. cbv beta iota zeta.
  unfold bind at 1. rewrite Hvs. cbv beta iota.
  unfold bind at 1. rewrite Hfs. reflexivity.
Qed.

(** C5.  The status query answers [GL_FALSE] and no wrapped call leaves an
    error behind.  [CompileShader] then asks for the length of the log and
    for the log with a buffer of exactly that length.  When the length is
    positive it prints the failure line and the log as the buffer holds
    it, deletes the unit and returns 0, having called nothing else; and
    when this is the vertex stage inside [CreateShader], [CreateShader]
    goes on from there with the whole compilation of the fragment source,
    whatever its outcome, and then with the attachment of the null unit,
    and has printed what the two compilations printed.  When the length
    is not positive the buffer is never written and printing it is
    undefined. *)
Theorem compile_failure_reported type source w
  r_id d1 r_src d2 r_cmp d3 r_st d4 r_len d5 r_log d6 r_del d7 :
  gl (glCreateShader type) (driver w) = (r_id, d1) ->
  gl (glShaderSource (value r_id) 1 source) d1 = (r_src, d2) ->
  gl (glCompileShader (value r_id)) d2 = (r_cmp, d3) ->
  gl (glGetShaderiv (value r_id) GL_COMPILE_STATUS) d3 = (r_st, d4) ->
  value r_st = GL_FALSE ->
  gl (glGetShaderiv (value r_id) GL_INFO_LOG_LENGTH) d4 = (r_len, d5) ->
  gl (glGetShaderInfoLog (value r_id) (value r_len)) d5 = (r_log, d6) ->
  gl (glDeleteShader (value r_id)) d6 = (r_del, d7) ->
  gl_error r_src = false -> gl_error r_cmp = false ->
  gl_error r_st = false -> gl_error r_len = false ->
  gl_error r_log = false -> gl_error r_del = false ->
  (value r_len <= 0 -> CompileShader gl type source w = Undef) /\
  (0 < value r_len ->
   let message :=
     c_str (substring 0 (Z.to_nat (value r_len - 1)) (text r_log)) in
   let w' :=
     {| driver := d7;
        calls := (calls w ++
                  [(glCreateShader type, r_id);
                   (glShaderSource (value r_id) 1 source, r_src);
                   (glCompileShader (value r_id), r_cmp);
                   (glGetShaderiv (value r_id) GL_COMPILE_STATUS, r_st);
                   (glGetShaderiv (value r_id) GL_INFO_LOG_LENGTH, r_len);
                   (glGetShaderInfoLog (value r_id) (value r_len), r_log);
                   (glDeleteShader (value r_id), r_del)])%list;
        cout := (cout w ++ failure_report type message)%string;
        r := r w; surfaced := surfaced w; debug := debug w |} in
   CompileShader gl type source w = Done 0 w' /\
   (type = GL_VERTEX_SHADER ->
    forall w0 r_p fragmentShader,
      invoke gl glCreateProgram w0 = Done r_p w ->
      match CompileShader gl GL_FRAGMENT_SHADER fragmentShader w' with
      | Done fs w'' =>
          exists tr,
            calls_of (CreateShader gl source fragmentShader w0) =
            (calls w'' ++
             (glAttachShader (value r_p) 0,
              fst (gl (glAttachShader (value r_p) 0) (driver w''))) :: tr)%list
            /\
            cout_of (CreateShader gl source fragmentShader w0) = cout w''
      | Halted w'' => CreateShader gl source fragmentShader w0 = Halted w''
      | Undef => CreateShader gl source fragmentShader w0 = Undef
      end)).
Proof.
  intros H1 H2 H3 H4 Hst H5 H6 H7 E2 E3 E4 E5 E6 E7. split.
  - intros Hlen. eapply CompileShader_unwritten_log; try eassumption.
    unfold message_in. now rewrite (proj2 (Z.leb_le _ _) Hlen).
  - intros Hlen message w'.
    assert (Hfail : CompileShader gl type source w = Done 0 w').
    { eapply CompileShader_failure; try eassumption.
      unfold message_in. now rewrite (proj2 (Z.leb_gt _ _) Hlen), E6. }
    split; [exact Hfail|].
    intros -> w0 r_p fragmentShader Hp.
    destruct (CompileShader gl GL_FRAGMENT_SHADER fragmentShader w')
      as [fs w''| w'' |] eqn:Hfs.
    + rewrite (CreateShader_after_compiling _ _ _ _ _ _ _ _ _ Hp Hfail Hfs).
      cbn [after_compiling seq_then run_stmt].
      destruct (CALL_then_quiet 98 (glAttachShader (value r_p) 0)
                  (fun _ =>
                     seq_then (tl (after_compiling (value r_p) 0 fs))
                       (ret (value r_p))) w'')
        as (tr & Hc & Ho & _).
      { intros rep. cbn [after_compiling tl seq_then run_stmt].
        auto 20 with quiet. }
      exists tr. split; [exact Hc | exact Ho].
    + unfold CreateShader.
      unfold bind at 1. rewrite Hp. cbv beta iota zeta.
      unfold bind at 1. rewrite Hfail. cbv beta iota.
      unfold bind at 1. now rewrite Hfs.
    + unfold CreateShader.
      unfold bind at 1. rewrite Hp. cbv beta iota zeta.
      unfold bind at 1. rewrite Hfail. cbv beta iota.
      unfold bind at 1. now rewrite Hfs.
Qed.


(** *** init and render: the uniform location *)

(** [init] up to the block [UNIFORMS]. *)
Definition init_until_uniforms (app : Application) : M Application :=
  bind (init_buffers gl app) (fun a => init_shaders gl int_of files a).

(** [app] with [m_UniformLoc] assigned. *)
Definition with_UniformLoc (app : Application) (loc : Z) : Application :=
  {| m_Shader := m_Shader app; m_Increment := m_Increment app;
     m_UniformLoc := loc; va := va app; vb := vb app; ib := ib app |}.

(** The statements of [init] that follow the resolution of the uniform
    name and its assertion. *)
Definition after_resolution (app : Application) (loc : Z) : list stmt :=
  [checked 158 (glUniform4f loc f0_0 f0_3 f0_8 f1_0);
   bare (VertexArray_Unbind (va app));
   checked 162 (glUseProgram 0);
   checked 163 (glBindBuffer GL_ARRAY_BUFFER 0);
   checked 164 (glBindBuffer GL_ELEMENT_ARRAY_BUFFER 0)].

(** The log [x] is the log of [w] with calls added that all satisfy [P]. *)
Definition added (P : call -> bool) (w : World) (x : list (call * reply))
  : Prop :=
  exists tr,
    x = (calls w ++ tr)%list /\ forallb (fun cr => P (fst cr)) tr = true.

(** Wherever a run of [m] stops, it has added only calls that satisfy [P]. *)
Definition only {A} (P : call -> bool) (m : M A) : Prop :=
  forall w,
    match m w with
    | Done _ w' | Halted w' => added P w (calls w')
    | Undef => True
    end.

(** A call that does not resolve a uniform name. *)
Definition no_resolve (c : call) : bool := negb (resolves c).

(** A call that neither resolves a uniform name nor sets the colour
    anywhere but at [loc]. *)
Definition keeps (loc : Z) (c : call) : bool :=
  negb (resolves c) && negb (sets_elsewhere loc c).

(** Every call added to the log by a run from [w] leaves the uniform name
    alone and sets the colour, if at all, at location [loc]. *)
Definition reuses (loc : Z) (w : World) (x : list (call * reply)) : Prop :=
  added (keeps loc) w x.

Lemma added_refl P w : added P w (calls w).
Proof. exists []. now rewrite app_nil_r. Qed.

Lemma added_trans P w w1 x :
  added P w (calls w1) -> added P w1 x -> added P w x.
Proof.
  intros (tr1 & E1 & F1) (tr2 & E2 & F2). exists (tr1 ++ tr2)%list. split.
  - now rewrite E2, E1, app_assoc.
  - rewrite forallb_app. now rewrite F1, F2.
Qed.

Lemma only_ret {A} P (a : A) : only P (ret a).
Proof. intros w. apply added_refl. Qed.

Lemma only_bind {A B} P (m : M A) (k : A -> M B) :
  only P m -> (forall a, only P (k a)) -> only P (bind m k).
Proof.
  intros Hm Hk w. unfold bind. specialize (Hm w).
  destruct (m w) as [a w1| w1 |]; [|exact Hm|exact I].
  specialize (Hk a w1).
  destruct (k a w1) as [b w2| w2 |]; [| |exact I];
    eapply added_trans; eassumption.
Qed.

Lemma only_invoke P c : P c = true -> only P (invoke gl c).
Proof.
  intros HP w. unfold invoke. destruct (gl c (driver w)) as [rep d].
  exists [(c, rep)]. split; [reflexivity|]. cbn. now rewrite HP.
Qed.

Lemma only_ASSERT P b : only P (ASSERT (Driver := Driver) b).
Proof. intros w. unfold ASSERT. destruct b; apply added_refl. Qed.

Lemma only_CALL P line c : P c = true -> only P (CALL gl line c).
Proof.
  intros HP w. destruct (gl c (driver w)) as [rep d] eqn:G.
  rewrite (CALL_outcome _ _ _ _ _ G). unfold checked_world, noted, logged.
  destruct (gl_error rep), (debug w); cbn [andb calls];
    (exists [(c, rep)]; split; [reflexivity|]; cbn; now rewrite HP).
Qed.

Lemma only_print P s : only P (print (Driver := Driver) s).
Proof. intros w. apply (added_refl P w). Qed.

Lemma only_through P p c : P c = true -> only P (through gl p c).
Proof.
  intros HP w. unfold through. destruct (p =? nullptr); [exact I|].
  now apply only_invoke.
Qed.

Lemma only_lift {A} P (o : outcome A) : only P (lift (Driver := Driver) o).
Proof. intros w. unfold lift. destruct o; [apply added_refl | exact I]. Qed.

#[local] Hint Resolve only_ret only_ASSERT only_print only_lift : only.
#[local] Hint Extern 1 (only _ (invoke _ _)) =>
  apply only_invoke; reflexivity : only.
#[local] Hint Extern 1 (only _ (CALL _ _ _)) =>
  apply only_CALL; reflexivity : only.
#[local] Hint Extern 1 (only _ (through _ _ _)) =>
  apply only_through; reflexivity : only.
#[local] Hint Extern 2 (only _ (bind _ _)) =>
  apply only_bind; [|intros ?] : only.
#[local] Hint Extern 3 (only _ (if ?b then _ else _)) => destruct b : only.

Lemma CompileShader_no_resolve type source :
  only no_resolve (CompileShader gl type source).
Proof. unfold CompileShader. auto 30 with only. Qed.

Lemma CreateShader_no_resolve vertexShader fragmentShader :
  only no_resolve (CreateShader gl vertexShader fragmentShader).
Proof.
  unfold CreateShader.
  apply only_bind; [auto with only|]. intros program_r.
  apply only_bind; [apply CompileShader_no_resolve|]. intros vs.
  apply only_bind; [apply CompileShader_no_resolve|]. intros fs.
  auto 20 with only.
Qed.

Lemma init_until_uniforms_no_resolve app :
  only no_resolve (init_until_uniforms app).
Proof.
  unfold init_until_uniforms, init_buffers, init_shaders.
  apply only_bind; [auto 20 with only|]. intros a.
  apply only_bind; [auto with only|]. intros source.
  apply only_bind; [apply CreateShader_no_resolve|]. intros shader.
  auto 20 with only.
Qed.

Lemma init_split app w :
  init gl int_of files app w =
  bind (init_until_uniforms app)
    (fun a => bind (init_uniforms gl a) (fun a' => init_unbind gl a')) w.
Proof. unfold init, init_until_uniforms. now rewrite bind_assoc. Qed.

Lemma init_buffers_va app w app1 w1 :
  init_buffers gl app w = Done app1 w1 ->
  va app1 = va app /\ (va app =? nullptr) = false.
Proof.
  unfold init_buffers, bind, through, invoke, ret.
  destruct (gl (VertexBuffer_new _ _) _) as [r1 d1]. cbn [driver].
  destruct (va app =? nullptr); [discriminate|].
  destruct (gl (VertexArray_AddBuffer _ _ _) _) as [r2 d2]. cbn [driver].
  destruct (gl (IndexBuffer_new _ _) _) as [r3 d3].
  intros [= <- _]. now split.
Qed.

Lemma init_shaders_fields app w app1 w1 :
  init_shaders gl int_of files app w = Done app1 w1 ->
  va app1 = va app /\ m_Increment app1 = m_Increment app /\
  vb app1 = vb app /\ ib app1 = ib app.
Proof.
  unfold init_shaders, bind.
  destruct (lift _ w) as [src w2| |]; try discriminate.
  destruct (CreateShader gl _ _ w2) as [p w3| |]; try discriminate.
  destruct (CALL gl _ _ w3) as [rep w4| |]; try discriminate.
  unfold ret. intros [= <- _]. now repeat split.
Qed.

Lemma init_until_uniforms_va app w app1 w1 :
  init_until_uniforms app w = Done app1 w1 -> (va app1 =? nullptr) = false.
Proof.
  unfold init_until_uniforms, bind.
  destruct (init_buffers gl app w) as [a w2| |] eqn:Hb; try discriminate.
  intros Hs. apply init_buffers_va in Hb as [Hb1 Hb2].
  apply init_shaders_fields in Hs as [Hs _]. congruence.
Qed.

Lemma init_uniforms_not_found app w rep d :
  gl (glGetUniformLocation (m_Shader app) "u_Color") (driver w) = (rep, d) ->
  value rep = -1 ->
  init_uniforms gl app w =
  Halted (checked_world 156 (glGetUniformLocation (m_Shader app) "u_Color")
            rep d w).
Proof.
  intros Hg Hv. unfold init_uniforms. unfold bind at 1.
  rewrite (CALL_outcome _ _ _ _ _ Hg).
  destruct (gl_error rep && debug w); [reflexivity|].
  cbv beta iota zeta. cbn [m_UniformLoc]. rewrite Hv. reflexivity.
Qed.

(** From the resolution on, when the name was found, [init] is the five
    statements that set the colour and unbind. *)
Lemma init_after_resolution app w rep d :
  gl (glGetUniformLocation (m_Shader app) "u_Color") (driver w) = (rep, d) ->
  gl_error rep && debug w = false -> value rep <> -1 ->
  (va app =? nullptr) = false ->
  bind (init_uniforms gl app) (fun a => init_unbind gl a) w =
  seq_then (after_resolution app (value rep))
    (ret (with_UniformLoc app (value rep)))
    (checked_world 156 (glGetUniformLocation (m_Shader app) "u_Color")
       rep d w).
Proof.
  intros Hg He Hv Hva. unfold bind at 1. unfold init_uniforms.
  unfold bind at 1. rewrite (CALL_outcome _ _ _ _ _ Hg), He.
  cbv beta iota zeta. cbn [m_UniformLoc].
  apply Z.eqb_neq in Hv. unfold bind at 1. unfold ASSERT. rewrite Hv.
  cbn [negb]. cbv beta iota.
  cbn [after_resolution seq_then run_stmt].
  unfold init_unbind, through, bind.
  destruct (CALL gl 158 _ _) as [x w2| w2 |]; cbv beta iota;
    try reflexivity.
  unfold ret at 1. cbv beta iota. cbn [va]. now rewrite Hva.
Qed.

Lemma render_cases app w :
  match render gl app w with
  | Done app' w' =>
      (r w', m_Increment app') = cycle_step (r w, m_Increment app) /\
      same_handles app' app /\
      map fst (calls w') = (map fst (calls w) ++ frame_calls app (r w))%list /\
      debug w' = debug w
  | Halted w' => r w' = r w /\ debug w = true
  | Undef => (va app =? nullptr) = true \/ (ib app =? nullptr) = true
  end.
Proof.
  destruct w as [d0 cs co r0 sf0 dbg].
  unfold render, bind, CALL, bind, through, invoke, surface, ret, cycle_step.
  cbn [driver calls cout r surfaced debug fst snd].
  repeat match goal with
         | |- context [gl ?c ?d] =>
             destruct (gl c d) as [? ?];
             cbn [driver calls cout r surfaced debug]
         | |- context [gl_error ?x] =>
             destruct (gl_error x); cbn [driver calls cout r surfaced debug]
         | |- context [if ?p =? nullptr then _ else _] =>
             destruct (p =? nullptr) eqn:?;
             cbn [driver calls cout r surfaced debug]
         | |- context [if dbg then _ else _] =>
             destruct dbg; cbn [driver calls cout r surfaced debug]
         end;
    auto;
    destruct (color_cycle r0 (m_Increment app)) as [r' inc];
    cbn [r m_Increment calls debug];
    (split; [reflexivity|]); (split; [now repeat split|]);
    (split; [|reflexivity]);
    rewrite !map_app; cbn [map fst frame_calls]; now rewrite <- !app_assoc.
Qed.

(** Frames that all return have made their five calls each, with the red
    channel of the colour cycle, and have kept the handles. *)
Lemma frames_done n : forall app w app_n w_n,
  frames gl n app w = Done app_n w_n ->
  (r w_n, m_Increment app_n) = cycle n (r w, m_Increment app) /\
  same_handles app_n app /\
  map fst (calls w_n) =
  (map fst (calls w) ++ frames_calls app (r w, m_Increment app) n)%list.
Proof.
  induction n as [|n IH]; intros app w app_n w_n; cbn [frames].
  - unfold ret. intros [= <- <-]. unfold frames_calls. cbn.
    rewrite app_nil_r. now repeat split.
  - unfold bind. destruct (frames gl n app w) as [a w1| w1 |] eqn:Hn;
      try discriminate.
    intros Hr. destruct (IH _ _ _ _ Hn) as (Hst & Hsame & Hcalls).
    pose proof (render_cases a w1) as H. rewrite Hr in H.
    destruct H as (Hst' & Hsame' & Hc' & _).
    split; [|split].
    + cbn [cycle]. now rewrite <- Hst.
    + destruct Hsame as (S1 & S2 & S3 & S4 & S5).
      destruct Hsame' as (T1 & T2 & T3 & T4 & T5). repeat split; congruence.
    + unfold frames_calls in *.
      rewrite Hc', Hcalls, seq_S, flat_map_app, <- !app_assoc.
      cbn [flat_map]. rewrite app_nil_r. do 2 apply f_equal.
      change (0 + n)%nat with n. rewrite <- Hst. cbn [fst].
      now apply frame_calls_same.
Qed.

Lemma render_reuses app w :
  match render gl app w with
  | Done app' w' =>
      m_UniformLoc app' = m_UniformLoc app /\
      reuses (m_UniformLoc app) w (calls w')
  | Halted w' => reuses (m_UniformLoc app) w (calls w')
  | Undef => True
  end.
Proof.
  destruct w as [d0 cs co r0 sf0 dbg].
  unfold render, bind, CALL, bind, through, invoke, surface, ret, color_cycle.
  cbn [driver calls cout r surfaced debug].
  repeat match goal with
         | |- context [gl ?c ?d] =>
             destruct (gl c d) as [? ?];
             cbn [driver calls cout r surfaced debug]
         | |- context [gl_error ?x] =>
             destruct (gl_error x); cbn [driver calls cout r surfaced debug]
         | |- context [if ?p =? nullptr then _ else _] =>
             destruct (p =? nullptr); cbn [driver calls cout r surfaced debug]
         | |- context [if dbg then _ else _] =>
             destruct dbg; cbn [driver calls cout r surfaced debug]
         end;
    try exact I;
    try (split; [reflexivity|]);
    unfold reuses, added;
    (eexists; split;
     [cbn [calls]; rewrite <- ?app_assoc; reflexivity
     |cbn; rewrite ?Z.eqb_refl; reflexivity]).
Qed.

Lemma frames_reuse n app w :
  match frames gl n app w with
  | Done app' w' =>
      m_UniformLoc app' = m_UniformLoc app /\
      reuses (m_UniformLoc app) w (calls w')
  | Halted w' => reuses (m_UniformLoc app) w (calls w')
  | Undef => True
  end.
Proof.
  induction n as [|n IH]; cbn [frames].
  - unfold ret. split; [reflexivity|]. apply added_refl.
  - unfold bind. destruct (frames gl n app w) as [a w1| w1 |]; try exact IH.
    destruct IH as [Hloc Hre]. pose proof (render_reuses a w1) as Hr.
    rewrite Hloc in Hr.
    destruct (render gl a w1) as [a' w2| w2 |]; [|idtac|exact I].
    + destruct Hr as [Hloc' Hr]. split; [congruence|].
      eapply added_trans; eassumption.
    + eapply added_trans; eassumption.
Qed.

(** C7.  [init] does not resolve any uniform name before the block
    [UNIFORMS].  At the point where it resolves [u_Color]: when the answer
    is -1, [init] stops there, with the resolution as its last call; when
    it is anything else and the remaining calls pass their checks, [init]
    finishes with [m_UniformLoc] holding that answer, and the calls that
    follow the resolution are the five that set the colour and unbind, so
    the name is resolved once.  [render], for any number of frames and
    wherever it stops, never resolves the name, sets the colour only at
    [m_UniformLoc], and leaves [m_UniformLoc] unchanged; and frames that
    return have each made the five calls of a frame, the second of which
    sets the colour at [m_UniformLoc] with the red channel of the colour
    cycle. *)
Theorem uniform_location_cached app w app1 w1 rep d :
  init_until_uniforms app w = Done app1 w1 ->
  gl (glGetUniformLocation (m_Shader app1) "u_Color") (driver w1) = (rep, d) ->
  added no_resolve w (calls w1) /\
  (value rep = -1 ->
   exists w',
     init gl int_of files app w = Halted w' /\
     calls w' =
     (calls w1 ++ [(glGetUniformLocation (m_Shader app1) "u_Color", rep)])%list)
  /\
  (value rep <> -1 -> gl_error rep = false ->
   forall tr sf d',
     replay (debug w1) d (after_resolution app1 (value rep))
       = (tr, sf, d', true) ->
     init gl int_of files app w =
     Done (with_UniformLoc app1 (value rep))
       {| driver := d';
          calls := (calls w1 ++
                    (glGetUniformLocation (m_Shader app1) "u_Color", rep)
                    :: tr)%list;
          cout := cout w1; r := r w1;
          surfaced := (surfaced w1 ++ sf)%list; debug := debug w1 |} /\
     map fst tr =
       [glUniform4f (value rep) f0_0 f0_3 f0_8 f1_0;
        VertexArray_Unbind (va app1);
        glUseProgram 0;
        glBindBuffer GL_ARRAY_BUFFER 0;
        glBindBuffer GL_ELEMENT_ARRAY_BUFFER 0])
  /\
  (forall n app' w',
     match frames gl n app' w' with
     | Done app'' w'' =>
         m_UniformLoc app'' = m_UniformLoc app' /\
         reuses (m_UniformLoc app') w' (calls w'') /\
         map fst (calls w'') =
         (map fst (calls w') ++
          flat_map
            (fun k =>
               [glUseProgram (m_Shader app');
                glUniform4f (m_UniformLoc app')
                  (fst (cycle k (r w', m_Increment app'))) f0_3 f0_8 f1_0;
                VertexArray_Bind (va app');
                IndexBuffer_Bind (ib app');
                glDrawElements GL_TRIANGLES 6 GL_UNSIGNED_INT])
            (seq 0 n))%list
     | Halted w'' => reuses (m_UniformLoc app') w' (calls w'')
     | Undef => True
     end).
Proof.
  intros Hpre Hg. split; [|split; [|split]].
  - pose proof (init_until_uniforms_no_resolve app w) as H.
    now rewrite Hpre in H.
  - intros Hv. rewrite init_split. unfold bind at 1. rewrite Hpre.
    cbv beta iota. unfold bind at 1.
    rewrite (init_uniforms_not_found _ _ _ _ Hg Hv).
    eexists. split; [reflexivity|].
    unfold checked_world. now destruct (gl_error rep).
  - intros Hv E tr sf d' Hrep.
    split; [|exact (replay_complete _ _ _ _ _ _ Hrep)].
    pose proof (init_until_uniforms_va _ _ _ _ Hpre) as Hva.
    rewrite init_split. unfold bind at 1. rewrite Hpre. cbv beta iota.
    rewrite (init_after_resolution _ _ _ _ Hg) by (rewrite ?E; auto).
    unfold checked_world. rewrite E.
    rewrite (seq_then_replay _ _ (logged _ rep d w1) tr sf d' true)
      by exact Hrep.
    cbv zeta. unfold ret, logged. cbn [driver calls cout r surfaced debug].
    now rewrite <- app_assoc.
  - intros n app' w'. pose proof (frames_reuse n app' w') as H.
    destruct (frames gl n app' w') as [a'' w''| w'' |] eqn:Hn;
      [|exact H|exact I].
    destruct H as [H1 H2]. split; [exact H1|]. split; [exact H2|].
    exact (proj2 (proj2 (frames_done _ _ _ _ _ Hn))).
Qed.

End Facts.

Arguments logged {Driver} c rep d w.
Arguments noted {Driver} line c rep w.
Arguments checked_world {Driver} line c rep d w.
Arguments replay {Driver} gl dbg d ss.
Arguments finish {Driver A} ok a w.
Arguments calls_of {Driver A} x.
Arguments cout_of {Driver A} x.
Arguments init_until_uniforms {Driver} gl int_of files app w.
Arguments added {Driver} P w x.
Arguments only {Driver A} P m.
Arguments reuses {Driver} loc w x.
Arguments later {Driver} w w'.
Arguments steady {Driver A} m.
Arguments quiet {Driver A} m.

(** The literals of the source as binary32 values. *)
Example literal_0_05 : f0_05 = S754_finite false 13421773 (-28).
Proof. reflexivity. Qed.

Example literal_0_01 : f0_01 = S754_finite false 10737418 (-30).
Proof. reflexivity. Qed.

Example literal_0_3 : f0_3 = S754_finite false 10066330 (-25).
Proof. reflexivity. Qed.

Example literal_0_8 : f0_8 = S754_finite false 13421773 (-24).
Proof. reflexivity. Qed.

Example literal_1_0 : f1_0 = S754_finite false 8388608 (-23).
Proof. reflexivity. Qed.

(** The step after the test on [r0], as the source orders the two tests. *)
Definition next_increment (r0 increment : float) : float :=
  if ltb f1_0 r0 then opp f0_01
  else if ltb r0 f0_0 then f0_01
  else increment.

Lemma above_one_not_below_zero r0 : ltb f1_0 r0 = true -> ltb r0 f0_0 = false.
Proof.
  let one := eval vm_compute in f1_0 in change f1_0 with one.
  let zero := eval vm_compute in f0_0 in change f0_0 with zero.
  destruct r0 as [s|s| |s m e]; try destruct s; try reflexivity;
    try discriminate.
Qed.

Lemma color_cycle_law r0 increment :
  color_cycle r0 increment =
  (add r0 (next_increment r0 increment), next_increment r0 increment).
Proof.
  unfold color_cycle, next_increment.
  destruct (ltb f1_0 r0) eqn:E1.
  - now rewrite (above_one_not_below_zero _ E1).
  - now destruct (ltb r0 f0_0).
Qed.

Lemma bounded_forall (P : nat -> bool) a len :
  forallb P (seq a len) = true ->
  forall k, (a <= k < a + len)%nat -> P k = true.
Proof.
  intros H k Hk. rewrite forallb_forall in H. apply H, in_seq. exact Hk.
Qed.

Section Frames.

Variable Driver : Type.
Variable gl : call -> Driver -> reply * Driver.

(** No call ever leaves an OpenGL error behind. *)
Definition never_fails : Prop := forall c d, gl_error (fst (gl c d)) = false.

Lemma render_cycle app (w : Builder.World Driver) :
  never_fails ->
  (va app =? nullptr) = false -> (ib app =? nullptr) = false ->
  exists app' w',
    render gl app w = Done app' w' /\
    (r w', m_Increment app') = cycle_step (r w, m_Increment app) /\
    same_handles app' app /\
    map fst (calls w') = (map fst (calls w) ++ frame_calls app (r w))%list.
Proof.
  intros Hnf Hva Hib. destruct w as [d0 cs co r0].
  unfold render, bind, CALL, bind, through, invoke, surface, ret.
  rewrite Hva, Hib. cbn [driver calls cout r].
  repeat match goal with
         | |- context [gl ?c ?d] =>
             let H := fresh "E" in
             pose proof (Hnf c d) as H;
             destruct (gl c d) as [? ?]; cbn [fst] in H;
             rewrite ?H; cbn [negb driver calls cout r]
         end.
  unfold cycle_step. cbn [fst snd].
  destruct (color_cycle r0 (m_Increment app)) as [r' inc].
  do 2 eexists. split; [reflexivity|]. cbn [r m_Increment calls].
  split; [reflexivity|]. split; [now repeat split|].
  rewrite !map_app. cbn [map fst]. now rewrite <- !app_assoc.
Qed.

Lemma frames_cycle n app (w : Builder.World Driver) :
  never_fails ->
  (va app =? nullptr) = false -> (ib app =? nullptr) = false ->
  exists app_n w_n,
    frames gl n app w = Done app_n w_n /\
    (r w_n, m_Increment app_n) = cycle n (r w, m_Increment app) /\
    same_handles app_n app /\
    map fst (calls w_n) =
    (map fst (calls w) ++
     flat_map (fun k => frame_calls app (fst (cycle k (r w, m_Increment app))))
       (seq 0 n))%list.
Proof.
  intros Hnf Hva Hib. induction n as [|n IH].
  - exists app, w. cbn. rewrite app_nil_r. now repeat split.
  - destruct IH as (a & w1 & Hrun & Hst & Hsame & Hcalls).
    cbn [frames]. unfold bind. rewrite Hrun.
    destruct Hsame as (S1 & S2 & S3 & S4 & S5).
    destruct (render_cycle a w1 Hnf) as (a' & w2 & Hr & Hst' & Hsame' & Hc');
      [congruence | congruence |].
    exists a', w2. split; [exact Hr|]. split; [|split].
    + cbn [cycle]. now rewrite <- Hst.
    + destruct Hsame' as (T1 & T2 & T3 & T4 & T5). repeat split; congruence.
    + rewrite Hc', Hcalls, seq_S, flat_map_app, <- !app_assoc.
      cbn [flat_map]. rewrite app_nil_r. do 2 apply f_equal.
      change (0 + n)%nat with n. rewrite <- Hst. cbn [fst].
      apply frame_calls_same. now repeat split.
Qed.

End Frames.

Arguments never_fails {Driver} gl.

(** *** The trajectory of the red channel *)

(** Structural equality of binary32 values. *)
Definition same (a b : float) : bool :=
  match a, b with
  | S754_zero s, S754_zero s' => Bool.eqb s s'
  | S754_infinity s, S754_infinity s' => Bool.eqb s s'
  | S754_nan, S754_nan => true
  | S754_finite s m e, S754_finite s' m' e' =>
      Bool.eqb s s' && Pos.eqb m m' && Z.eqb e e'
  | _, _ => false
  end.

Lemma same_eq a b : same a b = true -> a = b.
Proof.
  destruct a as [s|s| |s m e], b as [s'|s'| |s' m' e']; simpl;
    try discriminate; try reflexivity.
  - intros H. apply Bool.eqb_prop in H. now subst.
  - intros H. apply Bool.eqb_prop in H. now subst.
  - intros H. apply andb_true_iff in H as [H He].
    apply andb_true_iff in H as [Hs Hm].
    apply Bool.eqb_prop in Hs. apply Pos.eqb_eq in Hm. apply Z.eqb_eq in He.
    now subst.
Qed.

(** Frame [k] of the first climb: the step is [0.05f], the value is below
    [1.0f] and the next value is larger. *)
Definition climbing (k : nat) : bool :=
  same (snd (state k)) f0_05
  && ltb (fst (state k)) f1_0
  && ltb (fst (state k)) (fst (state (S k))).

(** After frame [k + 1] the step is [-0.01f] and the value has gone down. *)
Definition falling (k : nat) : bool :=
  same (snd (state (S k))) (opp f0_01)
  && ltb (fst (state (S k))) (fst (state k)).

(** After frame [k + 1] the step is [+0.01f] and the value has gone up. *)
Definition rising (k : nat) : bool :=
  same (snd (state (S k))) f0_01
  && ltb (fst (state k)) (fst (state (S k))).

(** Twenty steps of [0.05f] end one unit in the last place above [1.0f]. *)
Example state_20 :
  state 20 = (S754_finite false 8388609 (-23), f0_05).
Proof. vm_compute. reflexivity. Qed.

Lemma climbing_frames : forallb climbing (seq 0 20) = true.
Proof. vm_compute. reflexivity. Qed.

Lemma falling_frames : forallb falling (seq 20 101) = true.
Proof. vm_compute. reflexivity. Qed.

Lemma rising_frames : forallb rising (seq 121 101) = true.
Proof. vm_compute. reflexivity. Qed.

(** C8.  A fresh [Application] has step [0.05f], and [r] starts at [0.0f].
    With an implementation that raises no error, every frame returns, sends
    the colour ([r], [0.3f], [0.8f], [1.0f]) and then advances [r] by the
    step, after setting the step to [-0.01f] when [r > 1.0f] and to
    [+0.01f] when [r < 0.0f].  From the start: twenty frames climb by
    [0.05f] to a value of at least [1.0f]; the next frame flips the step to
    [-0.01f] and the value falls, frame after frame, until after frame 121
    it is below [0.0f]; the next frame flips the step to [+0.01f] and the
    value rises until after frame 222 it is above [1.0f], where the step
    flips to [-0.01f] again. *)
Theorem color_channel_oscillates (Driver : Type)
  (gl : call -> Driver -> reply * Driver) app (w : Builder.World Driver) :
  never_fails gl ->
  (va app =? nullptr) = false -> (ib app =? nullptr) = false ->
  m_Increment app = m_Increment Application_new ->
  r w = f0_0 ->
  m_Increment Application_new = f0_05 /\
  (forall n, exists app_n w_n,
     frames gl n app w = Done app_n w_n /\
     (r w_n, m_Increment app_n) = state n /\
     map fst (calls w_n) =
     (map fst (calls w) ++
      flat_map (fun k => frame_calls app (fst (state k))) (seq 0 n))%list) /\
  (forall s,
     cycle_step s =
     (add (fst s) (next_increment (fst s) (snd s)),
      next_increment (fst s) (snd s))) /\
  (forall k, (k < 20)%nat ->
     snd (state k) = f0_05 /\
     ltb (fst (state k)) f1_0 = true /\
     ltb (fst (state k)) (fst (state (S k))) = true) /\
  leb f1_0 (fst (state 20)) = true /\
  (forall k, (20 <= k < 121)%nat ->
     snd (state (S k)) = opp f0_01 /\
     ltb (fst (state (S k))) (fst (state k)) = true) /\
  ltb (fst (state 121)) f0_0 = true /\
  (forall k, (121 <= k < 222)%nat ->
     snd (state (S k)) = f0_01 /\
     ltb (fst (state k)) (fst (state (S k))) = true) /\
  ltb f1_0 (fst (state 222)) = true /\
  snd (state 223) = opp f0_01.
Proof.
  intros Hnf Hva Hib Hinc Hr.
  split; [reflexivity|]. split.
  { intros n.
    destruct (frames_cycle Driver gl n app w Hnf Hva Hib)
      as (a & w' & Hrun & Hst & _ & Hcalls).
    rewrite Hr, Hinc in Hst, Hcalls.
    exists a, w'. now repeat split. }
  split; [intros [r0 inc]; apply color_cycle_law|].
  split.
  { intros k Hk.
    pose proof (bounded_forall climbing 0 20 climbing_frames k) as H.
    unfold climbing in H. specialize (H ltac:(lia)).
    apply andb_true_iff in H as [H H3]. apply andb_true_iff in H as [H1 H2].
    apply same_eq in H1. now repeat split. }
  split; [vm_compute; reflexivity|]. split.
  { intros k Hk.
    pose proof (bounded_forall falling 20 101 falling_frames k) as H.
    unfold falling in H. specialize (H ltac:(lia)).
    apply andb_true_iff in H as [H1 H2].
    apply same_eq in H1. now split. }
  split; [vm_compute; reflexivity|]. split.
  { intros k Hk.
    pose proof (bounded_forall rising 121 101 rising_frames k) as H.
    unfold rising in H. specialize (H ltac:(lia)).
    apply andb_true_iff in H as [H1 H2].
    apply same_eq in H1. now split. }
  split; vm_compute; reflexivity.
Qed.

(** *** A concrete implementation *)

(** An implementation whose state is the last object name it handed out.
    It fails every compilation with the log ["error"], resolves every
    uniform name to [loc], and raises no error. *)
Definition answer (v : Z) : reply :=
  {| value := v; text := ""; gl_error := false |}.

Definition sample_gl (loc : Z) (c : call) (d : Z) : reply * Z :=
  match c with
  | glCreateShader _ | glCreateProgram
  | VertexBuffer_new _ _ | IndexBuffer_new _ _ => (answer (d + 1), d + 1)
  | glGetShaderiv _ pname =>
      (answer (if pname =? GL_INFO_LOG_LENGTH then 6 else GL_FALSE), d)
  | glGetShaderInfoLog _ _ =>
      ({| value := 5; text := "error"; gl_error := false |}, d)
  | glGetUniformLocation _ _ => (answer loc, d)
  | _ => (answer 0, d)
  end.

Definition sample_world : Builder.World Z :=
  {| driver := 0; calls := []; cout := ""; r := f0_0;
     surfaced := []; debug := true |}.

(** The same start without the debug assertion. *)
Definition release_world : Builder.World Z :=
  {| driver := 0; calls := []; cout := ""; r := f0_0;
     surfaced := []; debug := false |}.

(** [sample_gl], except that attaching the null unit leaves an error
    behind. *)
Definition strict_gl (loc : Z) (c : call) (d : Z) : reply * Z :=
  match c with
  | glAttachShader _ 0 => ({| value := 0; text := ""; gl_error := true |}, d)
  | _ => sample_gl loc c d
  end.

(** A fresh [Application] whose vertex array has been set by its owner. *)
Definition sample_app : Application :=
  {| m_Shader := 0; m_Increment := f0_05; m_UniformLoc := 0;
     va := 100; vb := nullptr; ib := 101 |}.

Definition sample_files : filesystem :=
  one_file "res/shaders/Basic.shader" SplitterSpec.scenario.

Lemma sample_gl_never_fails loc : never_fails (sample_gl loc).
Proof. intros c d. now destruct c. Qed.

(** [t = v], where [v] is the value [t] computes to, handed to [k]. *)
Ltac computed t k :=
  let v := eval vm_compute in t in
  let H := fresh "Hrun" in
  assert (H : t = v) by (vm_compute; reflexivity);
  k v H.

(** [sample_gl], except that every shader query answers 0: the status is
    [GL_FALSE] and the log is empty. *)
Definition empty_log_gl (c : call) (d : Z) : reply * Z :=
  match c with
  | glGetShaderiv _ _ => (answer 0, d)
  | _ => sample_gl 0 c d
  end.

(** A compilation that fails with an empty log: the buffer is never
    written, and printing it is undefined. *)
Example empty_log_is_undefined :
  CompileShader empty_log_gl GL_VERTEX_SHADER "void main(" sample_world
  = Undef.
Proof. reflexivity. Qed.

Lemma compile_failure_reported_witness :
  CompileShader (sample_gl 0) GL_VERTEX_SHADER "void main("
    {| driver := 1; calls := [(glCreateProgram, answer 1)]; cout := "";
       r := f0_0; surfaced := []; debug := true |} =
  Done 0
    {| driver := 2;
       calls :=
         [(glCreateProgram, answer 1);
          (glCreateShader GL_VERTEX_SHADER, answer 2);
          (glShaderSource 2 1 "void main(", answer 0);
          (glCompileShader 2, answer 0);
          (glGetShaderiv 2 GL_COMPILE_STATUS, answer GL_FALSE);
          (glGetShaderiv 2 GL_INFO_LOG_LENGTH, answer 6);
          (glGetShaderInfoLog 2 6,
           {| value := 5; text := "error"; gl_error := false |});
          (glDeleteShader 2, answer 0)];
       cout := "Failed to compile vertex shader!" ++ nl ++ "error" ++ nl;
       r := f0_0; surfaced := []; debug := true |} /\
  cout_of (CreateShader (sample_gl 0) "void main(" "void main(" sample_world) =
  ("Failed to compile vertex shader!" ++ nl ++ "error" ++ nl)
  ++ ("Failed to compile fragment shader!" ++ nl ++ "error" ++ nl).
Proof.
  pose proof (proj2
                (compile_failure_reported Z (sample_gl 0) GL_VERTEX_SHADER
                   "void main("
                   {| driver := 1; calls := [(glCreateProgram, answer 1)];
                      cout := ""; r := f0_0; surfaced := []; debug := true |}
                   (answer 2) 2 (answer 0) 2 (answer 0) 2 (answer GL_FALSE) 2
                   (answer 6) 2
                   {| value := 5; text := "error"; gl_error := false |} 2
                   (answer 0) 2
                   eq_refl eq_refl eq_refl eq_refl eq_refl eq_refl eq_refl
                   eq_refl eq_refl eq_refl eq_refl eq_refl eq_refl eq_refl)
                ltac:(reflexivity)) as [Hfail Hnext].
  split; [exact Hfail|].
  specialize (Hnext eq_refl sample_world (answer 1) "void main(" eq_refl).
  cbv zeta in Hnext.
  match type of Hnext with
  | match ?t with _ => _ end =>
      computed t ltac:(fun v H => rewrite H in Hnext)
  end.
  destruct Hnext as (tr & _ & Hcout). rewrite Hcout. reflexivity.
Defined.


Lemma uniform_location_cached_witness :
  (exists w',
     init (sample_gl (-1)) customary sample_files sample_app sample_world
       = Halted w') /\
  (exists app' w',
     init (sample_gl 7) customary sample_files sample_app sample_world
       = Done app' w' /\ m_UniformLoc app' = 7 /\
     exists app'' w'',
       frames (sample_gl 7) 2 app' w' = Done app'' w'' /\
       firstn 2 (skipn 5 (skipn (length (calls w')) (map fst (calls w''))))
       =
       [glUseProgram 3; glUniform4f 7 f0_05 f0_3 f0_8 f1_0]).
Proof.
  split.
  - computed (init_until_uniforms (sample_gl (-1)) customary sample_files
                sample_app sample_world)
      ltac:(fun v1 H1 => match v1 with Done ?app1 ?w1 =>
    computed (sample_gl (-1) (glGetUniformLocation (m_Shader app1) "u_Color")
                (driver w1))
      ltac:(fun v2 H2 => match v2 with (?rep, ?d) =>
    pose proof (proj1 (proj2
                  (uniform_location_cached Z (sample_gl (-1)) customary
                     sample_files sample_app sample_world app1 w1 rep d
                     H1 H2)) eq_refl) as Hthm
    end) end).
    destruct Hthm as (w' & Hthm & _). now exists w'.
  - computed (init_until_uniforms (sample_gl 7) customary sample_files
                sample_app sample_world)
      ltac:(fun v1 H1 => match v1 with Done ?app1 ?w1 =>
    computed (sample_gl 7 (glGetUniformLocation (m_Shader app1) "u_Color")
                (driver w1))
      ltac:(fun v2 H2 => match v2 with (?rep, ?d) =>
    computed (replay (sample_gl 7) (debug w1) d
                (after_resolution app1 (value rep)))
      ltac:(fun v3 H3 => match v3 with (?tr, ?sf, ?d', _) =>
    pose proof (uniform_location_cached Z (sample_gl 7) customary
                  sample_files sample_app sample_world app1 w1 rep d
                  H1 H2) as (_ & _ & Hfound & Hframes);
    pose proof (proj1 (Hfound ltac:(discriminate) eq_refl tr sf d' H3))
      as Hthm
    end) end) end).
    do 2 eexists. split; [exact Hthm|]. split; [reflexivity|].
    match type of Hthm with
    | _ = Done ?a ?w' =>
        computed (frames (sample_gl 7) 2 a w')
          ltac:(fun v H => match v with Done ?a2 ?w2 =>
            pose proof (Hframes 2%nat a w') as Hfr; rewrite H in Hfr;
            exists a2, w2; split; [exact H|]
          end)
    end.
    destruct Hfr as (_ & _ & Hlog). rewrite Hlog. vm_compute. reflexivity.
Defined.

Lemma color_channel_oscillates_witness :
  exists app_n w_n,
    frames (sample_gl 0) 21 sample_app sample_world = Done app_n w_n /\
    (r w_n, m_Increment app_n) = state 21 /\
    snd (state 21) = opp f0_01.
Proof.
  pose proof (color_channel_oscillates Z (sample_gl 0) sample_app sample_world
                (sample_gl_never_fails 0) eq_refl eq_refl eq_refl eq_refl)
    as (_ & Hframes & _ & _ & _ & Hfall & _).
  destruct (Hframes 21%nat) as (a & w' & Hrun & Hst & _).
  exists a, w'. split; [exact Hrun|]. split; [exact Hst|].
  exact (proj1 (Hfall 20%nat ltac:(lia))).
Defined.

End BuilderSpec.

(* ====================================================================== *)
Module SplitterLaws.

Import Splitter.
Import SplitterSpec.
Open Scope string_scope.

(** *** Texts and their lines *)

(** No newline character in [s]. *)
Fixpoint no_newline (s : string) : bool :=
  match s with
  | EmptyString => true
  | String c rest => negb (Ascii.eqb c newline) && no_newline rest
  end.

(** The lines [ls] written out, each followed by one newline. *)
Fixpoint join (ls : list string) : string :=
  match ls with
  | [] => ""
  | l :: rest => l ++ nl ++ join rest
  end.

(** The last character of [s] is a newline. *)
Fixpoint ends_with_newline (s : string) : bool :=
  match s with
  | EmptyString => false
  | String c EmptyString => Ascii.eqb c newline
  | String _ rest => ends_with_newline rest
  end.

(** A line of shader code: no newline in it and no marker token. *)
Definition content_line (l : string) : bool :=
  no_newline l && is_npos (find l "#shader").

Lemma extract_line_terminated line rest :
  no_newline line = true -> extract_line (line ++ nl ++ rest) = (line, rest).
Proof.
  induction line as [|c line IH]; [reflexivity|].
  cbn [append extract_line no_newline].
  - intros H. apply andb_true_iff in H as [Hc Hl].
    apply negb_true_iff in Hc. rewrite Hc, (IH Hl). reflexivity.
Qed.

Lemma extract_line_unterminated line :
  no_newline line = true -> extract_line line = (line, "").
Proof.
  induction line as [|c line IH]; simpl.
  - reflexivity.
  - intros H. apply andb_true_iff in H as [Hc Hl].
    apply negb_true_iff in Hc. rewrite Hc, (IH Hl). reflexivity.
Qed.

Lemma text_lines_empty : text_lines "" = [].
Proof. unfold text_lines. now rewrite lines_of_step. Qed.

Lemma getline_some s :
  s <> "" ->
  getline {| failbit := false; unread := s |} =
  ({| failbit := false; unread := snd (extract_line s) |},
   Some (fst (extract_line s))).
Proof.
  intros Hne. unfold getline. cbn [failbit unread].
  destruct s as [|c s']; [now destruct Hne|].
  now destruct (extract_line (String c s')).
Qed.

Lemma text_lines_cons line rest :
  no_newline line = true ->
  text_lines (line ++ nl ++ rest) = line :: text_lines rest.
Proof.
  intros H. unfold text_lines. rewrite lines_of_step, getline_some.
  - now rewrite (extract_line_terminated _ _ H).
  - destruct line; discriminate.
Qed.

Lemma text_lines_last line :
  no_newline line = true -> line <> "" -> text_lines line = [line].
Proof.
  intros H Hne. unfold text_lines.
  rewrite lines_of_step, (getline_some _ Hne), (extract_line_unterminated _ H).
  cbn [fst snd]. fold (text_lines ""). now rewrite text_lines_empty.
Qed.

Lemma text_lines_join ls rest :
  forallb no_newline ls = true ->
  text_lines (join ls ++ rest) = (ls ++ text_lines rest)%list.
Proof.
  induction ls as [|l ls IH]; [reflexivity|].
  cbn [join forallb]. intros H. apply andb_true_iff in H as [Hl Hls].
  rewrite !append_assoc, (text_lines_cons _ _ Hl), (IH Hls). reflexivity.
Qed.

(** Every text is some lines written out, followed by a last stretch that
    has no newline. *)
Lemma text_shape text :
  exists ls last,
    text = join ls ++ last /\
    forallb no_newline ls = true /\ no_newline last = true /\
    ends_with_newline text = match last with "" => negb (match ls with [] => true | _ => false end) | _ => false end.
Proof.
  induction text as [|c text IH].
  - exists [], "". now repeat split.
  - destruct IH as (ls & last & E & Hls & Hlast & Hend).
    destruct (Ascii.eqb c newline) eqn:Ec.
    + apply Ascii.eqb_eq in Ec. subst c.
      exists ("" :: ls), last. split; [simpl; now rewrite E|].
      split; [exact Hls|]. split; [exact Hlast|].
      cbn [ends_with_newline]. destruct text as [|d text'].
      * destruct ls; [|destruct s; discriminate].
        simpl in E. subst last. reflexivity.
      * rewrite Hend. destruct last; [|reflexivity].
        destruct ls as [|l ls']; [discriminate|reflexivity].
    + destruct ls as [|l ls'].
      * exists [], (String c last). simpl in *. subst text.
        split; [reflexivity|]. split; [reflexivity|].
        split; [now rewrite Ec|].
        destruct last; [now rewrite Ec | exact Hend].
      * exists (String c l :: ls'), last. simpl in *.
        apply andb_true_iff in Hls as [Hl Hls'].
        split; [now rewrite E|]. split; [now rewrite Ec, Hl|].
        split; [exact Hlast|].
        destruct text as [|d text']; [destruct l; discriminate|].
        rewrite Hend. now destruct last.
Qed.

(** *** A last line with or without its newline *)

(** X4.  A text that does not end in a newline (and is not empty) is read
    exactly like the same text with the newline added: [ParseShader] gives
    the same result for both files. *)
Theorem final_newline_optional int_of fs1 fs2 filepath text :
  text <> "" ->
  ends_with_newline text = false ->
  fs1 filepath = Some text ->
  fs2 filepath = Some (text ++ nl) ->
  text_lines (text ++ nl) = text_lines text /\
  ParseShader int_of fs2 filepath = ParseShader int_of fs1 filepath.
Proof.
  intros Hne Hend H1 H2.
  assert (E : text_lines (text ++ nl) = text_lines text).
  { destruct (text_shape text) as (ls & last & -> & Hls & Hlast & Hshape).
    rewrite Hend in Hshape.
    assert (Hl : last <> "").
    { intros ->. destruct ls; [now destruct Hne | discriminate]. }
    rewrite append_assoc, !text_lines_join by assumption.
    rewrite (text_lines_last _ Hlast Hl).
    rewrite <- (append_empty_r nl) at 1.
    now rewrite (text_lines_cons _ _ Hlast), text_lines_empty. }
  split; [exact E|].
  rewrite !ParseShader_run_lines.
  now rewrite (lines_of_open _ _ _ H1), (lines_of_open _ _ _ H2), E.
Qed.

Lemma final_newline_optional_witness :
  ParseShader customary
    (one_file shader_path ("#shader fragment" ++ nl ++ "B" ++ nl)) shader_path
  = ParseShader customary
      (one_file shader_path ("#shader fragment" ++ nl ++ "B")) shader_path.
Proof.
  exact (proj2 (final_newline_optional customary
                  (one_file shader_path ("#shader fragment" ++ nl ++ "B"))
                  (one_file shader_path (("#shader fragment" ++ nl ++ "B") ++ nl))
                  shader_path ("#shader fragment" ++ nl ++ "B")
                  ltac:(discriminate) eq_refl eq_refl eq_refl)).
Defined.

(** *** What a pass over one line can do to the two buffers *)

Lemma loop_body_pair int_of line t a b st' :
  loop_body int_of line {| type := t; ss := [a; b] |} = Returns st' ->
  (find line "#shader" <> npos /\ ss st' = [a; b]) \/
  (find line "#shader" = npos /\ type st' = t /\
   in_bounds (int_of t) = true /\
   (ss st' = [a ++ line ++ nl; b] \/ ss st' = [a; b ++ line ++ nl])).
Proof.
  destruct (find line "#shader") as [n|] eqn:Em.
  - assert (Hm : find line "#shader" <> npos) by (rewrite Em; discriminate).
    rewrite Em in Hm. rewrite loop_body_marker by (now rewrite Em).
    intros [= <-]. left. now split.
  - rewrite loop_body_content by exact Em. cbn [type ss].
    unfold ss_put, ss_str.
    destruct (slot_cases (int_of t)) as [[E|E]|E]; rewrite E; cbn.
    + intros [= <-]. right. repeat split; auto.
    + intros [= <-]. right. repeat split; auto.
    + discriminate.
Qed.

(** The content lines of [lines]: those without the marker token. *)
Definition content (lines : list string) : list string :=
  filter (fun line => is_npos (find line "#shader")) lines.

(** The content lines of [lines] that are read while the section in force
    has slot [i] of [ss], in order; [active] is the section in force when
    the first line is read, and a marker line changes it as [selected]
    says. *)
Fixpoint routed (int_of : ShaderType -> Z) (i : Z) (active : ShaderType)
  (lines : list string) : list string :=
  match lines with
  | [] => []
  | line :: rest =>
      if is_npos (find line "#shader") then
        (if (int_of active =? i)%Z then [line] else [])
        ++ routed int_of i active rest
      else routed int_of i (selected line active) rest
  end.

Lemma run_lines_routed int_of lines : forall t a b st',
  run_lines int_of lines {| type := t; ss := [a; b] |} = Returns st' ->
  ss st' = [a ++ join (routed int_of 0 t lines);
            b ++ join (routed int_of 1 t lines)] /\
  Permutation (routed int_of 0 t lines ++ routed int_of 1 t lines)
    (content lines).
Proof.
  induction lines as [|line rest IH]; intros t a b st';
    cbn [run_lines routed content filter].
  - intros [= <-]. cbn [ss join]. rewrite !append_empty_r.
    split; [reflexivity | constructor].
  - destruct (find line "#shader") as [n|] eqn:Em; cbn [is_npos].
    + rewrite loop_body_marker by (rewrite Em; discriminate).
      cbn [bind_outcome type ss]. apply IH.
    + rewrite loop_body_content by exact Em. cbn [type ss].
      unfold ss_put, ss_str.
      destruct (slot_cases (int_of t)) as [[E|E]|E]; rewrite E;
        cbn [in_bounds ss_size Z.leb Z.ltb Z.compare andb Z.to_nat update
             nth bind_outcome Z.eqb Pos.eqb];
        try discriminate.
      * intros Hrun. destruct (IH _ _ _ _ Hrun) as [-> Hp].
        cbn [app join]. rewrite !append_assoc. split; [reflexivity|].
        now constructor.
      * intros Hrun. destruct (IH _ _ _ _ Hrun) as [-> Hp].
        cbn [app join]. rewrite !append_assoc. split; [reflexivity|].
        now apply Permutation_sym, Permutation_cons_app, Permutation_sym.
Qed.

(** X3.  With the two sections in distinct slots, whenever [ParseShader]
    returns: the vertex source is exactly the content lines that were read
    while the section in force had the slot of [VERTEX], in their order,
    each with one newline, and the fragment source likewise; and the two
    lists of lines together are the content lines of the file, each one
    once: no content line is lost and none is written twice. *)
Theorem content_conserved int_of fs filepath text src :
  slots_ok int_of ->
  fs filepath = Some text ->
  ParseShader int_of fs filepath = Returns src ->
  let vertex := routed int_of (int_of VERTEX) NONE (text_lines text) in
  let fragment := routed int_of (int_of FRAGMENT) NONE (text_lines text) in
  VertexSource src = join vertex /\
  FragmentSource src = join fragment /\
  Permutation (vertex ++ fragment) (content (text_lines text)).
Proof.
  intros Hs Hfile. rewrite ParseShader_run_lines, (lines_of_open _ _ _ Hfile).
  destruct (run_lines int_of (text_lines text) {| type := NONE; ss := [""; ""] |})
    as [st'|] eqn:Hrun; [|discriminate].
  destruct (run_lines_routed _ _ _ _ _ _ Hrun) as [Ess Hp].
  cbn [bind_outcome]. rewrite Ess.
  rewrite !ss_str_pick by (assumption || discriminate).
  cbn [bind_outcome]. intros [= <-]. cbn [VertexSource FragmentSource].
  unfold pick. cbn [append].
  destruct (slots_ok_cases _ Hs) as [[-> ->]|[-> ->]]; cbn [Z.eqb Pos.eqb];
    repeat split; try exact Hp.
  eapply Permutation_trans; [apply Permutation_app_comm | exact Hp].
Qed.

Lemma content_conserved_witness :
  "A" ++ nl = join (routed customary 0 NONE (text_lines scenario)) /\
  "B" ++ nl = join (routed customary 1 NONE (text_lines scenario)) /\
  Permutation
    (routed customary 0 NONE (text_lines scenario)
     ++ routed customary 1 NONE (text_lines scenario))
    (content (text_lines scenario)).
Proof.
  exact (content_conserved customary (one_file shader_path scenario)
           shader_path scenario
           {| VertexSource := "A" ++ nl; FragmentSource := "B" ++ nl |}
           customary_slots_ok eq_refl eq_refl).
Defined.

(** *** When the behaviour is undefined *)

(** A content line is reached while no recognised marker has been seen:
    the scan stops with [true] at the first content line, and with [false]
    at the first marker line that names [vertex] or [fragment]. *)
Fixpoint unrouted (lines : list string) : bool :=
  match lines with
  | [] => false
  | line :: rest =>
      if is_npos (find line "#shader") then true
      else if is_npos (find line "vertex") && is_npos (find line "fragment")
           then unrouted rest
           else false
  end.

Lemma selected_not_NONE line t : t <> NONE -> selected line t <> NONE.
Proof.
  intros Ht. unfold selected.
  destruct (negb (is_npos (find line "vertex"))); [discriminate|].
  now destruct (negb (is_npos (find line "fragment"))).
Qed.

(** Once a section is active, nothing that follows can go out of bounds. *)
Lemma run_lines_defined int_of lines :
  slots_ok int_of ->
  forall t a b, t <> NONE ->
  exists t' a' b',
    run_lines int_of lines {| type := t; ss := [a; b] |} =
    Returns {| type := t'; ss := [a'; b'] |}.
Proof.
  intros Hs. induction lines as [|line rest IH]; intros t a b Ht.
  - now exists t, a, b.
  - cbn [run_lines]. destruct (find line "#shader") as [n|] eqn:Em.
    + rewrite loop_body_marker by (rewrite Em; discriminate).
      cbn [bind_outcome type ss]. apply IH. now apply selected_not_NONE.
    + rewrite loop_body_content by exact Em. cbn [type ss].
      destruct (ss_put_pair int_of t a b line Hs Ht) as (a1 & b1 & -> & _).
      cbn [bind_outcome]. now apply IH.
Qed.

(** X2.  With the two sections in distinct slots and [NONE] outside the
    array, [ParseShader] is undefined exactly when the file has a content
    line before its first marker line that names [vertex] or [fragment];
    for every other file it returns. *)
Theorem undefined_iff_unrouted int_of fs filepath text :
  slots_ok int_of ->
  in_bounds (int_of NONE) = false ->
  fs filepath = Some text ->
  (ParseShader int_of fs filepath = Undefined <->
   unrouted (text_lines text) = true) /\
  (unrouted (text_lines text) = false ->
   exists src, ParseShader int_of fs filepath = Returns src).
Proof.
  intros Hs Hnone Hfile.
  rewrite ParseShader_run_lines, (lines_of_open _ _ _ Hfile).
  assert (H : if unrouted (text_lines text)
              then run_lines int_of (text_lines text)
                     {| type := NONE; ss := [""; ""] |} = Undefined
              else exists t' a' b',
                     run_lines int_of (text_lines text)
                       {| type := NONE; ss := [""; ""] |}
                     = Returns {| type := t'; ss := [a'; b'] |}).
  { induction (text_lines text) as [|line rest IH]; cbn [unrouted run_lines].
    - now exists NONE, "", "".
    - destruct (find line "#shader") as [n|] eqn:Em; cbn [is_npos].
      + rewrite loop_body_marker by (rewrite Em; discriminate).
        cbn [bind_outcome type ss]. unfold selected.
        destruct (find line "vertex"); cbn [is_npos negb andb].
        * apply run_lines_defined; [assumption | discriminate].
        * destruct (find line "fragment"); cbn [is_npos negb].
          -- apply run_lines_defined; [assumption | discriminate].
          -- exact IH.
      + rewrite loop_body_content by exact Em. cbn [type ss].
        now rewrite ss_put_out_of_bounds. }
  destruct (unrouted (text_lines text)).
  - rewrite H. cbn [bind_outcome]. split; [tauto | discriminate].
  - destruct H as (t' & a' & b' & ->). cbn [bind_outcome ss].
    rewrite !ss_str_pick by (assumption || discriminate).
    cbn [bind_outcome]. split; [split; discriminate|].
    intros _. eexists. reflexivity.
Qed.

Lemma undefined_iff_unrouted_witness :
  ParseShader customary
    (one_file shader_path ("#shader geometry" ++ nl ++ "X" ++ nl)) shader_path
  = Undefined.
Proof.
  apply (proj1 (undefined_iff_unrouted customary
                  (one_file shader_path ("#shader geometry" ++ nl ++ "X" ++ nl))
                  shader_path ("#shader geometry" ++ nl ++ "X" ++ nl)
                  customary_slots_ok eq_refl eq_refl)).
  reflexivity.
Defined.

(** *** The marker token never reaches the sources *)

Lemma occurs_across a b needle :
  no_newline needle = true ->
  occurs needle (a ++ nl ++ b) -> occurs needle a \/ occurs needle b.
Proof.
  intros Hn (pre & post & E). revert pre E.
  induction a as [|x a IH]; intros pre E.
  - cbn in E. destruct pre as [|p pre'].
    + destruct needle as [|n ns]; [left; now exists "", ""|].
      cbn in E. injection E as En _. subst n.
      cbn in Hn. discriminate Hn.
    + cbn in E. injection E as _ E. right. now exists pre', post.
  - destruct pre as [|p pre'].
    + left. exists "". cbn [append] in *.
      assert (P : forall ns s, no_newline ns = true ->
                  s ++ nl ++ b = ns ++ post -> exists y, s = ns ++ y).
      { clear. induction ns as [|n ns IHn]; intros s Hn E.
        - now exists s.
        - cbn in Hn. apply andb_true_iff in Hn as [Hc Hn].
          destruct s as [|y s].
          + cbn in E. injection E as En _. subst n.
            now rewrite Ascii.eqb_refl in Hc.
          + cbn in E. injection E as -> E.
            destruct (IHn s Hn E) as (z & ->). now exists z. }
      destruct (P needle (String x a) Hn E) as (y & ->). now exists y.
    + cbn in E. injection E as -> E.
      destruct (IH pre' E) as [(q & r & ->)|Hb]; [left|now right].
      now exists (String p q), r.
Qed.

Lemma find_join ls :
  forallb (fun l => is_npos (find l "#shader")) ls = true ->
  find (join ls) "#shader" = npos.
Proof.
  induction ls as [|l ls IH]; [reflexivity|].
  cbn [forallb join]. intros H. apply andb_true_iff in H as [Hl Hls].
  apply is_npos_true in Hl. specialize (IH Hls).
  destruct (find (l ++ nl ++ join ls) "#shader") as [n|] eqn:E; [|reflexivity].
  assert (Ho : occurs "#shader" (l ++ nl ++ join ls))
    by (apply found_occurs; rewrite E; discriminate).
  apply occurs_across in Ho; [|reflexivity].
  destruct Ho as [Ho|Ho]; apply occurs_found in Ho; try discriminate;
    [now rewrite Hl in Ho | now rewrite IH in Ho].
Qed.

(** [s] is content lines of the file written out. *)
Definition written (s : string) : Prop :=
  exists ls,
    s = join ls /\ forallb (fun l => is_npos (find l "#shader")) ls = true.

Lemma join_snoc ls line : join ls ++ line ++ nl = join (ls ++ [line]).
Proof.
  induction ls as [|l ls IH]; cbn [join app].
  - cbn [append]. now rewrite append_empty_r.
  - now rewrite !append_assoc, IH.
Qed.

Lemma written_put s line :
  written s -> find line "#shader" = npos -> written (s ++ line ++ nl).
Proof.
  intros (ls & -> & H) Hl. exists (ls ++ [line])%list. split.
  - apply join_snoc.
  - rewrite forallb_app, H. cbn. now rewrite Hl.
Qed.

Lemma run_lines_written int_of lines : forall t a b st',
  written a -> written b ->
  run_lines int_of lines {| type := t; ss := [a; b] |} = Returns st' ->
  exists a' b', ss st' = [a'; b'] /\ written a' /\ written b'.
Proof.
  induction lines as [|line rest IH]; intros t a b st' Ha Hb; cbn [run_lines].
  - intros [= <-]. now exists a, b.
  - destruct (loop_body int_of line {| type := t; ss := [a; b] |})
      as [[t1 ss1]|] eqn:Hstep; [|discriminate].
    cbn [bind_outcome]. intros Hrun.
    destruct (loop_body_pair _ _ _ _ _ _ Hstep)
      as [[Hm E]|(Hc & _ & _ & [E|E])]; cbn [ss] in E; subst ss1.
    + exact (IH _ _ _ _ Ha Hb Hrun).
    + exact (IH _ _ _ _ (written_put _ _ Ha Hc) Hb Hrun).
    + exact (IH _ _ _ _ Ha (written_put _ _ Hb Hc) Hrun).
Qed.

(** X5.  Whatever the values of the enumerators, whenever [ParseShader]
    returns, the token [#shader] occurs in neither source it returns. *)
Theorem marker_token_never_returned int_of fs filepath src :
  ParseShader int_of fs filepath = Returns src ->
  find (VertexSource src) "#shader" = npos /\
  find (FragmentSource src) "#shader" = npos.
Proof.
  rewrite ParseShader_run_lines.
  destruct (run_lines int_of _ _) as [st'|] eqn:Hrun; [|discriminate].
  assert (W : written "") by (now exists []).
  destruct (run_lines_written _ _ _ _ _ _ W W Hrun)
    as (a' & b' & Ess & (la & -> & Ha) & (lb & -> & Hb)).
  cbn [bind_outcome]. rewrite Ess. unfold ss_str.
  destruct (slot_cases (int_of VERTEX)) as [[Ev|Ev]|Ev]; rewrite Ev;
    try discriminate;
    (destruct (slot_cases (int_of FRAGMENT)) as [[Ef|Ef]|Ef]; rewrite Ef;
     try discriminate);
    cbn; intros [= <-]; cbn [VertexSource FragmentSource];
    split; now apply find_join.
Qed.

Lemma marker_token_never_returned_witness :
  find ("A" ++ nl) "#shader" = npos /\ find ("B" ++ nl) "#shader" = npos.
Proof.
  exact (marker_token_never_returned customary
           (one_file shader_path scenario) shader_path
           {| VertexSource := "A" ++ nl; FragmentSource := "B" ++ nl |}
           eq_refl).
Defined.

(** *** Joining two sources and splitting them again *)

(** The combined file for a vertex source and a fragment source. *)
Definition combine (vertex fragment : list string) : string :=
  ("#shader vertex" ++ nl ++ join vertex)
  ++ "#shader fragment" ++ nl ++ join fragment.

Lemma marker_keyword_content l :
  find l "#shader" = npos -> marker_keyword l = None.
Proof.
  intros H. unfold marker_keyword.
  destruct (String.eqb_spec l "#shader vertex") as [->|_]; [discriminate|].
  destruct (String.eqb_spec l "#shader fragment") as [->|_]; [discriminate|].
  reflexivity.
Qed.

Lemma content_lines_no_newline ls :
  forallb content_line ls = true -> forallb no_newline ls = true.
Proof.
  induction ls as [|l ls IH]; [reflexivity|]. cbn [forallb].
  intros H. apply andb_true_iff in H as [Hl Hls].
  apply andb_true_iff in Hl as [Hn _]. now rewrite Hn, IH.
Qed.

Lemma content_lines_well_formed ls :
  forallb content_line ls = true -> well_formed_markers ls = true.
Proof.
  unfold well_formed_markers.
  induction ls as [|l ls IH]; [reflexivity|]. cbn [forallb].
  intros H. apply andb_true_iff in H as [Hl Hls].
  apply andb_true_iff in Hl as [_ Hm].
  rewrite (IH Hls). unfold well_formed_line. now rewrite Hm.
Qed.

Lemma section_text_content want t ls rest :
  forallb content_line ls = true ->
  section_text want (Some t) (ls ++ rest) =
  (if ShaderType_eqb t want then join ls else "")
  ++ section_text want (Some t) rest.
Proof.
  induction ls as [|l ls IH]; cbn [forallb app section_text join].
  - now destruct (ShaderType_eqb t want).
  - intros H. apply andb_true_iff in H as [Hl Hls].
    apply andb_true_iff in Hl as [_ Hm]. apply is_npos_true in Hm.
    rewrite (marker_keyword_content _ Hm), (IH Hls).
    destruct (ShaderType_eqb t want); [|reflexivity].
    now rewrite !append_assoc.
Qed.

Lemma section_text_content_only want t ls :
  forallb content_line ls = true ->
  section_text want (Some t) ls =
  if ShaderType_eqb t want then join ls else "".
Proof.
  intros H. rewrite <- (app_nil_r ls) at 1.
  rewrite (section_text_content _ _ _ _ H). cbn [section_text].
  destruct (ShaderType_eqb t want); [apply append_empty_r | reflexivity].
Qed.

(** X1.  With the two sections in distinct slots, whatever the value of
    [NONE]: write a vertex source and a fragment source, each a list of
    lines without newline and without the marker token, into one file under
    the two markers; [ParseShader] gives back exactly the two sources. *)
Theorem combine_then_split int_of fs filepath vertex fragment :
  slots_ok int_of ->
  forallb content_line vertex = true ->
  forallb content_line fragment = true ->
  fs filepath = Some (combine vertex fragment) ->
  ParseShader int_of fs filepath =
  Returns {| VertexSource := join vertex; FragmentSource := join fragment |}.
Proof.
  intros Hs Hv Hf Hfile.
  rewrite ParseShader_run_lines, (lines_of_open _ _ _ Hfile).
  unfold combine.
  rewrite !append_assoc, text_lines_cons by reflexivity.
  rewrite text_lines_join by now apply content_lines_no_newline.
  rewrite text_lines_cons by reflexivity.
  rewrite <- (append_empty_r (join fragment)).
  rewrite text_lines_join by now apply content_lines_no_newline.
  rewrite text_lines_empty, app_nil_r.
  cbn [run_lines]. rewrite loop_body_vertex by (vm_compute; congruence).
  cbn [bind_outcome ss].
  assert (Hwf : well_formed_markers (vertex ++ "#shader fragment" :: fragment)
                = true).
  { unfold well_formed_markers. rewrite forallb_app. cbn [forallb].
    fold (well_formed_markers vertex). fold (well_formed_markers fragment).
    rewrite !content_lines_well_formed by assumption. reflexivity. }
  destruct (run_lines_sections int_of _ Hs Hwf VERTEX "" "" ltac:(discriminate))
    as (t' & a' & b' & -> & Ev & Ef).
  cbn [bind_outcome ss].
  rewrite !ss_str_pick by (assumption || discriminate).
  cbn [bind_outcome]. rewrite Ev, Ef.
  rewrite !section_text_content by assumption. cbn [ShaderType_eqb section_text].
  change (marker_keyword "#shader fragment") with (Some FRAGMENT).
  rewrite !section_text_content_only by assumption.
  cbn [ShaderType_eqb]. unfold pick.
  destruct (int_of VERTEX =? 0)%Z, (int_of FRAGMENT =? 0)%Z;
    cbn [append]; now rewrite ?append_empty_r.
Qed.

Lemma combine_then_split_witness :
  ParseShader customary
    (one_file shader_path
       (combine ["void main()"; "{ gl_Position = p; }"]
                ["void main()"; "{ color = u_Color; }"]))
    shader_path
  = Returns
      {| VertexSource := join ["void main()"; "{ gl_Position = p; }"];
         FragmentSource := join ["void main()"; "{ color = u_Color; }"] |}.
Proof.
  exact (combine_then_split customary _ shader_path
           ["void main()"; "{ gl_Position = p; }"]
           ["void main()"; "{ color = u_Color; }"]
           customary_slots_ok eq_refl eq_refl eq_refl).
Defined.

End SplitterLaws.

(* ====================================================================== *)
Module BuilderLaws.

Import Splitter.
Import Float32.
Import Builder.
Import BuilderSpec.
Open Scope string_scope.
Open Scope Z_scope.

Section Laws.

Variable Driver : Type.
Variable gl : call -> Driver -> reply * Driver.
Variable int_of : ShaderType -> Z.
Variable files : filesystem.

(** Every answer of the implementation in the run is named and every test
    on an answer is split: the run is then an explicit outcome. *)
Ltac split_run :=
  repeat match goal with
         | |- context [gl ?c ?d] =>
             destruct (gl c d) as [? ?] eqn:?;
             cbn [driver calls cout r surfaced debug]
         | |- context [gl_error ?x] =>
             destruct (gl_error x) eqn:?;
             cbn [driver calls cout r surfaced debug]
         | |- context [value ?x =? GL_FALSE] =>
             destruct (value x =? GL_FALSE) eqn:?;
             cbn [driver calls cout r surfaced debug]
         | |- context [value ?x <=? 0] =>
             destruct (value x <=? 0) eqn:?;
             cbn [driver calls cout r surfaced debug]
         | |- context [if ?p =? nullptr then _ else _] =>
             destruct (p =? nullptr) eqn:?;
             cbn [driver calls cout r surfaced debug]
         end.

Ltac known := first [reflexivity | assumption].

Lemma CompileShader_cases type source (w : Builder.World Driver) :
  let (r1, d1) := gl (glCreateShader type) (driver w) in
  let id := value r1 in
  let (r2, d2) := gl (glShaderSource id 1 source) d1 in
  let (r3, d3) := gl (glCompileShader id) d2 in
  let (r4, d4) := gl (glGetShaderiv id GL_COMPILE_STATUS) d3 in
  let (r5, d5) := gl (glGetShaderiv id GL_INFO_LOG_LENGTH) d4 in
  let (r6, d6) := gl (glGetShaderInfoLog id (value r5)) d5 in
  let (r7, d7) := gl (glDeleteShader id) d6 in
  match CompileShader gl type source w with
  | Done v w' =>
      r w' = r w /\ gl_error r4 = false /\
      ((value r4 <> GL_FALSE /\ v = id /\ cout w' = cout w /\
        calls w' =
        (calls w ++
         [(glCreateShader type, r1); (glShaderSource id 1 source, r2);
          (glCompileShader id, r3);
          (glGetShaderiv id GL_COMPILE_STATUS, r4)])%list)
       \/
       (value r4 = GL_FALSE /\ 0 < value r5 /\
        gl_error r5 = false /\ gl_error r6 = false /\ v = 0 /\
        cout w' =
        cout w ++
        failure_report type
          (c_str (substring 0 (Z.to_nat (value r5 - 1)) (text r6))) /\
        calls w' =
        (calls w ++
         [(glCreateShader type, r1); (glShaderSource id 1 source, r2);
          (glCompileShader id, r3);
          (glGetShaderiv id GL_COMPILE_STATUS, r4);
          (glGetShaderiv id GL_INFO_LOG_LENGTH, r5);
          (glGetShaderInfoLog id (value r5), r6);
          (glDeleteShader id, r7)])%list))
  | Halted w' => r w' = r w /\ debug w = true
  | Undef =>
      gl_error r4 = true \/
      (value r4 = GL_FALSE /\
       (gl_error r5 = true \/ value r5 <= 0 \/ gl_error r6 = true))
  end.
Proof.
  destruct w as [d0 cs co r0 sf0 dbg].
  cbn [driver calls cout r surfaced debug].
  unfold CompileShader, bind, CALL, bind, invoke, surface, ret, print, lift,
    message_in, out_value.
  cbn [driver calls cout r surfaced debug].
  destruct (gl (glCreateShader type) d0) as [r1 d1] eqn:G1. cbv zeta.
  destruct (gl (glShaderSource _ _ _) d1) as [r2 d2] eqn:G2.
  destruct (gl (glCompileShader _) d2) as [r3 d3] eqn:G3.
  destruct (gl (glGetShaderiv _ GL_COMPILE_STATUS) d3) as [r4 d4] eqn:G4.
  destruct (gl (glGetShaderiv _ GL_INFO_LOG_LENGTH) d4) as [r5 d5] eqn:G5.
  destruct (gl (glGetShaderInfoLog _ _) d5) as [r6 d6] eqn:G6.
  destruct (gl (glDeleteShader _) d6) as [r7 d7] eqn:G7.
  cbn [driver calls cout r surfaced debug value].
  destruct dbg;
    repeat (first
              [ rewrite G2 | rewrite G3 | rewrite G4 | rewrite G5
              | rewrite G6 | rewrite G7
              | match goal with
                | H : gl_error ?x = _ |- context [if gl_error ?x then _ else _]
                  => rewrite H
                | |- context [if gl_error ?x then _ else _] =>
                    destruct (gl_error x) eqn:?
                | |- context [value ?x =? GL_FALSE] =>
                    destruct (value x =? GL_FALSE) eqn:?
                | |- context [value ?x <=? 0] =>
                    destruct (value x <=? 0) eqn:?
                end ];
            cbn [driver calls cout r surfaced debug value orb]);
    first
      [ split; reflexivity
      | solve
          [ left; known
          | right; split; [now apply Z.eqb_eq|];
            first [ left; known
                  | right; left; now apply Z.leb_le
                  | right; right; known ] ]
      | split; [reflexivity|]; split; [known|];
        solve
          [ left; split; [now apply Z.eqb_neq|];
            split; [reflexivity|]; split; [reflexivity|];
            now rewrite <- !app_assoc
          | right; split; [now apply Z.eqb_eq|];
            split; [now apply Z.leb_gt|];
            split; [known|]; split; [known|];
            split; [reflexivity|];
            split; [unfold failure_report; now rewrite append_assoc
                   | now rewrite <- !app_assoc] ] ].
Qed.

(** X6.  The outcomes of [CompileShader], for any implementation, in
    terms of its answers to the calls in the order of the source.  It
    returns in one of two ways only.  Either the status is not [GL_FALSE]:
    it has made the four calls create, source, compile, status, printed
    nothing, deleted nothing, and returns the name [glCreateShader] gave.
    Or the status is [GL_FALSE] and the length of the log is positive: it
    has made those four calls and then length, log, delete, printed the
    failure report with the log as the buffer holds it, and returns 0.  It
    never changes [r].  It is undefined only when it reads what was never
    written: the status or the length after a query that left an error
    behind, or the log when its length is not positive or its query left
    an error behind. *)
Theorem CompileShader_outcomes type source (w : Builder.World Driver) :
  let (r1, d1) := gl (glCreateShader type) (driver w) in
  let id := value r1 in
  let (r2, d2) := gl (glShaderSource id 1 source) d1 in
  let (r3, d3) := gl (glCompileShader id) d2 in
  let (r4, d4) := gl (glGetShaderiv id GL_COMPILE_STATUS) d3 in
  let (r5, d5) := gl (glGetShaderiv id GL_INFO_LOG_LENGTH) d4 in
  let (r6, d6) := gl (glGetShaderInfoLog id (value r5)) d5 in
  let (r7, d7) := gl (glDeleteShader id) d6 in
  match CompileShader gl type source w with
  | Done v w' =>
      r w' = r w /\ gl_error r4 = false /\
      ((value r4 <> GL_FALSE /\ v = id /\ cout w' = cout w /\
        calls w' =
        (calls w ++
         [(glCreateShader type, r1); (glShaderSource id 1 source, r2);
          (glCompileShader id, r3);
          (glGetShaderiv id GL_COMPILE_STATUS, r4)])%list)
       \/
       (value r4 = GL_FALSE /\ 0 < value r5 /\
        gl_error r5 = false /\ gl_error r6 = false /\ v = 0 /\
        cout w' =
        cout w ++
        failure_report type
          (c_str (substring 0 (Z.to_nat (value r5 - 1)) (text r6))) /\
        calls w' =
        (calls w ++
         [(glCreateShader type, r1); (glShaderSource id 1 source, r2);
          (glCompileShader id, r3);
          (glGetShaderiv id GL_COMPILE_STATUS, r4);
          (glGetShaderiv id GL_INFO_LOG_LENGTH, r5);
          (glGetShaderInfoLog id (value r5), r6);
          (glDeleteShader id, r7)])%list))
  | Halted w' => r w' = r w
  | Undef =>
      gl_error r4 = true \/
      (value r4 = GL_FALSE /\
       (gl_error r5 = true \/ value r5 <= 0 \/ gl_error r6 = true))
  end.
Proof.
  pose proof (CompileShader_cases type source w) as H.
  destruct (gl (glCreateShader type) (driver w)) as [r1 d1]. cbv zeta in *.
  destruct (gl (glShaderSource _ _ _) d1) as [r2 d2].
  destruct (gl (glCompileShader _) d2) as [r3 d3].
  destruct (gl (glGetShaderiv _ GL_COMPILE_STATUS) d3) as [r4 d4].
  destruct (gl (glGetShaderiv _ GL_INFO_LOG_LENGTH) d4) as [r5 d5].
  destruct (gl (glGetShaderInfoLog _ _) d5) as [r6 d6].
  destruct (gl (glDeleteShader _) d6) as [r7 d7].
  destruct (CompileShader gl type source w); [exact H|exact (proj1 H)|exact H].
Qed.

(** A call that creates a shader object. *)
Definition creates (c : call) : bool :=
  match c with glCreateShader _ => true | _ => false end.

(** When [CompileShader] returns it has created one shader object, first
    of all, and either returns its name or has deleted it. *)
Lemma CompileShader_unit type source (w : Builder.World Driver) v w' :
  CompileShader gl type source w = Done v w' ->
  exists r1 tr,
    calls w' = (calls w ++ (glCreateShader type, r1) :: tr)%list /\
    forallb (fun cr => negb (creates (fst cr))) tr = true /\
    (v = value r1 \/ In (glDeleteShader (value r1)) (map fst tr)).
Proof.
  intros Hrun. pose proof (CompileShader_cases type source w) as H.
  destruct (gl (glCreateShader type) (driver w)) as [r1 d1].
  cbv zeta in H.
  destruct (gl (glShaderSource _ _ _) d1) as [r2 d2].
  destruct (gl (glCompileShader _) d2) as [r3 d3].
  destruct (gl (glGetShaderiv _ GL_COMPILE_STATUS) d3) as [r4 d4].
  destruct (gl (glGetShaderiv _ GL_INFO_LOG_LENGTH) d4) as [r5 d5].
  destruct (gl (glGetShaderInfoLog _ _) d5) as [r6 d6].
  destruct (gl (glDeleteShader _) d6) as [r7 d7].
  rewrite Hrun in H.
  destruct H as (_ & _ & [(_ & -> & _ & ->)|(_ & _ & _ & _ & -> & _ & ->)]);
    exists r1; eexists; (split; [reflexivity|]); (split; [reflexivity|]).
  - now left.
  - right. cbn [map fst In]. auto 10.
Qed.

(** The shader objects created in the trace are all deleted in it. *)
Definition units_released (tr : list (call * reply)) : Prop :=
  forall type rep,
    In (glCreateShader type, rep) tr ->
    In (glDeleteShader (value rep)) (map fst tr).

Lemma not_created (tr : list (call * reply)) type rep :
  forallb (fun cr => negb (creates (fst cr))) tr = true ->
  In (glCreateShader type, rep) tr -> False.
Proof.
  intros H Hin. rewrite forallb_forall in H. specialize (H _ Hin).
  discriminate H.
Qed.

(** X7.  Whenever [CreateShader] returns, every shader object that it
    created on the way (one per stage) has been deleted, whether that
    stage compiled or not, and what it returns is the name
    [glCreateProgram] gave. *)
Theorem CreateShader_releases_units vertexShader fragmentShader
  (w : Builder.World Driver) :
  match CreateShader gl vertexShader fragmentShader w with
  | Done program w' =>
      program = value (fst (gl glCreateProgram (driver w))) /\
      exists tr, calls w' = (calls w ++ tr)%list /\ units_released tr
  | Halted _ | Undef => True
  end.
Proof.
  destruct (CreateShader gl vertexShader fragmentShader w)
    as [program w'| |] eqn:Hrun; try exact I.
  destruct (invoke gl glCreateProgram w) as [r_p w1| |] eqn:Hp;
    try (unfold CreateShader, bind in Hrun; rewrite Hp in Hrun;
         discriminate Hrun).
  destruct (CompileShader gl GL_VERTEX_SHADER vertexShader w1)
    as [vs w2| |] eqn:Hvs;
    try (unfold CreateShader, bind in Hrun; rewrite Hp, Hvs in Hrun;
         discriminate Hrun).
  destruct (CompileShader gl GL_FRAGMENT_SHADER fragmentShader w2)
    as [fs w3| |] eqn:Hfs;
    try (unfold CreateShader, bind in Hrun; rewrite Hp, Hvs, Hfs in Hrun;
         discriminate Hrun).
  rewrite (CreateShader_after_compiling _ _ _ _ _ _ _ _ _ _ _ Hp Hvs Hfs)
    in Hrun.
  destruct (replay gl (debug w3) (driver w3)
              (after_compiling (value r_p) vs fs))
    as [[[tr6 sf] d'] ok] eqn:Hrep.
  rewrite (seq_then_replay _ _ _ _ _ _ _ _ _ Hrep) in Hrun.
  destruct ok; [|discriminate Hrun].
  pose proof (replay_complete _ _ _ _ _ _ _ _ Hrep) as Hsix.
  cbn [after_compiling map call_of] in Hsix.
  unfold ret in Hrun. injection Hrun as <- <-.
  unfold invoke in Hp. destruct (gl glCreateProgram (driver w)) as [rp d1].
  injection Hp as <- <-. cbn [fst]. split; [reflexivity|].
  destruct (CompileShader_unit _ _ _ _ _ Hvs) as (a1 & trv & Ev & Nv & Dv).
  destruct (CompileShader_unit _ _ _ _ _ Hfs) as (b1 & trf & Ef & Nf & Df).
  cbn [calls] in *.
  exists ([(glCreateProgram, rp)]
          ++ ((glCreateShader GL_VERTEX_SHADER, a1) :: trv)
          ++ ((glCreateShader GL_FRAGMENT_SHADER, b1) :: trf) ++ tr6)%list.
  split; [rewrite Ef, Ev, <- !app_assoc; reflexivity|].
  intros type rep Hin. rewrite !map_app, Hsix. cbn [map fst].
  cbn [app] in Hin. destruct Hin as [Hin|Hin]; [discriminate Hin|].
  destruct Hin as [Hin|Hin].
  { injection Hin as _ <-. right. right.
    apply in_or_app. destruct Dv as [->|Dv]; [|now left].
    right. right. apply in_or_app. right. cbn. auto 10. }
  apply in_app_or in Hin as [Hin|Hin];
    [exfalso; exact (not_created _ _ _ Nv Hin)|].
  destruct Hin as [Hin|Hin].
  { injection Hin as _ <-. right. right. apply in_or_app. right. right.
    apply in_or_app. destruct Df as [->|Df]; [|now left].
    right. cbn. auto 10. }
  apply in_app_or in Hin as [Hin|Hin];
    [exfalso; exact (not_created _ _ _ Nf Hin)|].
  exfalso. apply (in_map fst) in Hin. rewrite Hsix in Hin. cbn in Hin.
  repeat (destruct Hin as [Hin|Hin]; [discriminate Hin|]). exact Hin.
Qed.

(** *** The blocks of [init] *)

#[local] Hint Resolve quiet_ret quiet_invoke quiet_ASSERT quiet_CALL : quiet.
#[local] Hint Extern 2 (quiet (bind _ _)) =>
  apply quiet_bind; [|intros ?] : quiet.

#[local] Hint Resolve steady_ret steady_print steady_lift
  steady_CreateShader : steady.
#[local] Hint Extern 1 (steady (CALL _ _ _)) =>
  apply quiet_steady, quiet_CALL : steady.
#[local] Hint Extern 2 (steady (bind _ _)) =>
  apply steady_bind; [|intros ?] : steady.

(** [a] holds the same objects and the same step as [b]. *)
Definition same_objects (a b : Application) : Prop :=
  m_Increment a = m_Increment b /\ va a = va b /\ vb a = vb b /\ ib a = ib b.

Lemma quiet_through p c : (p =? nullptr) = false -> quiet (through gl p c).
Proof.
  intros Hp w. unfold through. rewrite Hp. apply quiet_invoke.
Qed.

Lemma quiet_init_uniforms app : quiet (init_uniforms gl app).
Proof. unfold init_uniforms. auto 30 with quiet. Qed.

Lemma quiet_init_unbind app :
  (va app =? nullptr) = false -> quiet (init_unbind gl app).
Proof.
  intros Hva. unfold init_unbind.
  apply quiet_bind; [now apply quiet_through|]. intros _.
  auto 30 with quiet.
Qed.

Lemma steady_init_shaders app : steady (init_shaders gl int_of files app).
Proof. unfold init_shaders. auto 30 with steady. Qed.

Lemma init_buffers_returns app (w : Builder.World Driver) :
  (va app =? nullptr) = false ->
  exists app1 w1 rv ra ri,
    init_buffers gl app w = Done app1 w1 /\
    r w1 = r w /\ m_Increment app1 = m_Increment app /\ va app1 = va app /\
    vb app1 = value rv /\ ib app1 = value ri /\
    calls w1 =
    (calls w ++
     [(VertexBuffer_new positions (4 * 2 * sizeof_float), rv);
      (VertexArray_AddBuffer (va app) (value rv) [(GL_FLOAT, 2)], ra);
      (IndexBuffer_new indices 6, ri)])%list.
Proof.
  intros Hva. destruct w as [d0 cs co r0 sf0 dbg].
  unfold init_buffers, bind, through, invoke, ret.
  cbn [driver calls cout r surfaced debug].
  destruct (gl (VertexBuffer_new _ _) d0) as [rv d1]. cbn [driver calls].
  rewrite Hva.
  destruct (gl (VertexArray_AddBuffer _ _ _) d1) as [ra d2]. cbn [driver calls].
  destruct (gl (IndexBuffer_new _ _) d2) as [ri d3].
  do 5 eexists. split; [reflexivity|]. cbn.
  repeat split. now rewrite <- !app_assoc.
Qed.

Lemma init_uniforms_fields app (w : Builder.World Driver) app' w' :
  init_uniforms gl app w = Done app' w' -> same_objects app' app.
Proof.
  unfold init_uniforms, bind.
  destruct (CALL gl _ _ w) as [loc w1| |]; try discriminate.
  destruct (ASSERT _ w1) as [u w2| |]; try discriminate.
  destruct (CALL gl _ _ w2) as [rep w3| |]; try discriminate.
  unfold ret. intros [= <- _]. now repeat split.
Qed.

Lemma init_unbind_fields app (w : Builder.World Driver) app' w' :
  init_unbind gl app w = Done app' w' -> app' = app.
Proof.
  unfold init_unbind, bind.
  destruct (through gl _ _ w) as [x w1| |]; try discriminate.
  destruct (CALL gl _ _ w1) as [x1 w2| |]; try discriminate.
  destruct (CALL gl _ _ w2) as [x2 w3| |]; try discriminate.
  destruct (CALL gl _ _ w3) as [x3 w4| |]; try discriminate.
  unfold ret. now intros [= <- _].
Qed.

(** [init] run block by block. *)
Lemma init_phases app (w : Builder.World Driver) :
  (va app =? nullptr) = false ->
  match init gl int_of files app w with
  | Done app' w' =>
      r w' = r w /\ m_Increment app' = m_Increment app /\ va app' = va app /\
      exists rv ra ri tr,
        calls w' =
        (calls w ++
         [(VertexBuffer_new positions (4 * 2 * sizeof_float), rv);
          (VertexArray_AddBuffer (va app) (value rv) [(GL_FLOAT, 2)], ra);
          (IndexBuffer_new indices 6, ri)] ++ tr)%list /\
        vb app' = value rv /\ ib app' = value ri
  | Halted w' => r w' = r w
  | Undef => True
  end.
Proof.
  intros Hva. unfold init. unfold bind at 1.
  destruct (init_buffers_returns app w Hva)
    as (a1 & w1 & rv & ra & ri & -> & Hr1 & Hi1 & Hv1 & Hvb & Hib & Hc1).
  unfold bind at 1.
  pose proof (steady_init_shaders a1 w1) as L2.
  destruct (init_shaders gl int_of files a1 w1) as [a2 w2| w2 |] eqn:E2;
    [|destruct L2; congruence|exact I].
  apply init_shaders_fields in E2 as (Hv2 & Hi2 & Hvb2 & Hib2).
  unfold bind.
  pose proof (quiet_init_uniforms a2 w2) as L3.
  destruct (init_uniforms gl a2 w2) as [a3 w3| w3 |] eqn:E3;
    [|destruct L3 as [[? _] _], L2; congruence|contradiction].
  apply init_uniforms_fields in E3 as (Hi3 & Hv3 & Hvb3 & Hib3).
  assert (Hva3 : (va a3 =? nullptr) = false) by congruence.
  pose proof (quiet_init_unbind a3 Hva3 w3) as L4.
  destruct (init_unbind gl a3 w3) as [a4 w4| w4 |] eqn:E4;
    [|destruct L4 as [[? _] _], L3 as [[? _] _], L2; congruence
     |contradiction].
  apply init_unbind_fields in E4 as ->.
  destruct L3 as [L3 _], L4 as [L4 _].
  pose proof (later_trans _ _ _ _ (later_trans _ _ _ _ L2 L3) L4)
    as (Hr & _ & tr & Hc).
  split; [congruence|]. split; [congruence|]. split; [congruence|].
  exists rv, ra, ri, tr. rewrite Hc, Hc1, <- app_assoc.
  repeat split; congruence.
Qed.

Lemma init_undefined_when app (w : Builder.World Driver) :
  (va app =? nullptr) = true \/
  ParseShader int_of files "res/shaders/Basic.shader" = Undefined ->
  init gl int_of files app w = Undef.
Proof.
  intros H. destruct (va app =? nullptr) eqn:Hva.
  - unfold init, bind, init_buffers, bind, through, invoke.
    destruct (gl (VertexBuffer_new _ _) (driver w)) as [rv d1].
    now rewrite Hva.
  - destruct H as [H|H]; [discriminate|].
    unfold init. unfold bind at 1.
    destruct (init_buffers_returns app w Hva) as (a1 & w1 & ? & ? & ? & -> & _).
    unfold bind at 1. unfold init_shaders. unfold bind at 1. unfold lift.
    now rewrite H.
Qed.

(** Past the block [SHADERS], [init] is never undefined. *)
Lemma init_defined_after_shaders app (w : Builder.World Driver) :
  (va app =? nullptr) = false ->
  bind (init_uniforms gl app) (fun a => init_unbind gl a) w <> Undef.
Proof.
  intros Hva. unfold bind.
  pose proof (quiet_init_uniforms app w) as L.
  destruct (init_uniforms gl app w) as [a w1| w1 |] eqn:E;
    [|discriminate|contradiction].
  apply init_uniforms_fields in E as (_ & Hv & _).
  assert (Hva' : (va a =? nullptr) = false) by congruence.
  pose proof (quiet_init_unbind a Hva' w1) as L'.
  destruct (init_unbind gl a w1); [discriminate|discriminate|contradiction].
Qed.

Lemma CreateShader_undefined vertexShader fragmentShader
  (w : Builder.World Driver) :
  CreateShader gl vertexShader fragmentShader w = Undef <->
  exists r_p w2,
    invoke gl glCreateProgram w = Done r_p w2 /\
    (CompileShader gl GL_VERTEX_SHADER vertexShader w2 = Undef \/
     exists vs w3,
       CompileShader gl GL_VERTEX_SHADER vertexShader w2 = Done vs w3 /\
       CompileShader gl GL_FRAGMENT_SHADER fragmentShader w3 = Undef).
Proof.
  split.
  - intros Hu.
    destruct (invoke gl glCreateProgram w) as [r_p w2| |] eqn:Hp;
      try (unfold invoke in Hp; destruct (gl _ _); discriminate Hp).
    exists r_p, w2. split; [reflexivity|].
    destruct (CompileShader gl GL_VERTEX_SHADER vertexShader w2)
      as [vs w3| w3 |] eqn:Hvs; [| |now left].
    + right. exists vs, w3. split; [reflexivity|].
      destruct (CompileShader gl GL_FRAGMENT_SHADER fragmentShader w3)
        as [fs w4| w4 |] eqn:Hfs; [| |reflexivity].
      * rewrite (CreateShader_after_compiling _ _ _ _ _ _ _ _ _ _ _
                   Hp Hvs Hfs) in Hu.
        destruct (replay gl (debug w4) (driver w4)
                    (after_compiling (value r_p) vs fs))
          as [[[tr sf] d'] ok] eqn:Hrep.
        rewrite (seq_then_replay _ _ _ _ _ _ _ _ _ Hrep) in Hu.
        now destruct ok.
      * unfold CreateShader, bind in Hu. now rewrite Hp, Hvs, Hfs in Hu.
    + unfold CreateShader, bind in Hu. now rewrite Hp, Hvs in Hu.
  - intros (r_p & w2 & Hp & [Hvs|(vs & w3 & Hvs & Hfs)]);
      unfold CreateShader, bind; rewrite Hp, Hvs; [reflexivity|].
    now rewrite Hfs.
Qed.

Lemma init_shaders_undefined app (w : Builder.World Driver) src :
  ParseShader int_of files "res/shaders/Basic.shader" = Returns src ->
  init_shaders gl int_of files app w = Undef <->
  CreateShader gl (VertexSource src) (FragmentSource src) w = Undef.
Proof.
  intros Hsrc. unfold init_shaders. unfold bind at 1. unfold lift.
  rewrite Hsrc. unfold bind at 1.
  destruct (CreateShader gl _ _ w) as [p w1| w1 |]; [| |tauto].
  - unfold bind. pose proof (quiet_CALL _ gl 152 (glUseProgram p) w1) as Q.
    destruct (CALL gl 152 _ w1); [|split; discriminate|contradiction].
    unfold ret. split; discriminate.
  - split; discriminate.
Qed.

(** X8.  [init] is undefined exactly when [va] is null (the first member
    call goes through it), or [ParseShader] is undefined, or one of the two
    compilations of [CreateShader] is undefined; no other statement of
    [init] can be.  The constructor leaves [va] null, so [init] on an
    [Application] as constructed is undefined. *)
Theorem init_undefined_iff app (w : Builder.World Driver) :
  (init gl int_of files app w = Undef <->
   (va app =? nullptr) = true \/
   ParseShader int_of files "res/shaders/Basic.shader" = Undefined \/
   exists app1 w1 src r_p w2,
     init_buffers gl app w = Done app1 w1 /\
     ParseShader int_of files "res/shaders/Basic.shader" = Returns src /\
     invoke gl glCreateProgram w1 = Done r_p w2 /\
     (CompileShader gl GL_VERTEX_SHADER (VertexSource src) w2 = Undef \/
      exists vs w3,
        CompileShader gl GL_VERTEX_SHADER (VertexSource src) w2 = Done vs w3
        /\
        CompileShader gl GL_FRAGMENT_SHADER (FragmentSource src) w3 = Undef))
  /\
  init gl int_of files Application_new w = Undef.
Proof.
  split; [split|].
  - intros Hu. destruct (va app =? nullptr) eqn:Hva; [now left|]. right.
    destruct (ParseShader int_of files "res/shaders/Basic.shader")
      as [src|] eqn:Hsrc; [|now left]. right.
    destruct (init_buffers_returns app w Hva)
      as (a1 & w1 & rv & ra & ri & Hb & _ & _ & Hv1 & _).
    exists a1, w1, src.
    unfold init in Hu. unfold bind at 1 in Hu. rewrite Hb in Hu.
    unfold bind at 1 in Hu.
    destruct (init_shaders gl int_of files a1 w1) as [a2 w2| w2 |] eqn:Hs;
      [|discriminate Hu|].
    + exfalso. apply init_shaders_fields in Hs as (Hv2 & _).
      refine (init_defined_after_shaders a2 w2 _ Hu). congruence.
    + apply (init_shaders_undefined _ _ _ Hsrc) in Hs.
      apply CreateShader_undefined in Hs as (r_p & w2 & Hp & Hc).
      exists r_p, w2. now repeat split.
  - intros [Hva|[Hsrc|(a1 & w1 & src & r_p & w2 & Hb & Hsrc & Hp & Hc)]].
    + apply init_undefined_when. now left.
    + apply init_undefined_when. now right.
    + unfold init. unfold bind at 1. rewrite Hb. unfold bind at 1.
      assert (Hs : init_shaders gl int_of files a1 w1 = Undef).
      { apply (init_shaders_undefined _ _ _ Hsrc), CreateShader_undefined.
        now exists r_p, w2. }
      now rewrite Hs.
  - apply init_undefined_when. now left.
Qed.

Lemma init_returned app (w : Builder.World Driver) app' w' :
  init gl int_of files app w = Done app' w' ->
  r w' = r w /\ m_Increment app' = m_Increment app /\ va app' = va app /\
  exists rv ra ri tr,
    calls w' =
    (calls w ++
     [(VertexBuffer_new positions (4 * 2 * sizeof_float), rv);
      (VertexArray_AddBuffer (va app) (value rv) [(GL_FLOAT, 2)], ra);
      (IndexBuffer_new indices 6, ri)] ++ tr)%list /\
    vb app' = value rv /\ ib app' = value ri /\
    Application_delete app' =
    ((if value rv =? nullptr then [] else [delete_VertexBuffer (value rv)])
     ++ (if value ri =? nullptr then [] else [delete_IndexBuffer (value ri)]))%list.
Proof.
  intros Hinit.
  destruct (va app =? nullptr) eqn:Hva;
    [rewrite init_undefined_when in Hinit by (now left); discriminate|].
  destruct (ParseShader int_of files "res/shaders/Basic.shader")
    as [src|] eqn:Hsrc;
    [|rewrite init_undefined_when in Hinit by (now right); discriminate].
  pose proof (init_phases app w Hva) as H. rewrite Hinit in H.
  destruct H as (Hr & Hi & Hv & rv & ra & ri & tr & Hc & Hvb & Hib).
  repeat (split; [assumption|]).
  exists rv, ra, ri, tr. repeat (split; [assumption|]).
  unfold Application_delete. now rewrite Hvb, Hib.
Qed.

(** X12.  When [init] returns, the two pointers that its [new
    VertexBuffer] and [new IndexBuffer] gave are the [vb] and [ib] of the
    object, [va], [m_Increment] and [r] are as they were, and the
    destructor releases exactly those two buffers (a null pointer is not
    released), the vertex buffer first. *)
Theorem destructor_releases_init_buffers app (w : Builder.World Driver) app' w' :
  init gl int_of files app w = Done app' w' ->
  r w' = r w /\ m_Increment app' = m_Increment app /\ va app' = va app /\
  exists rv ra ri tr,
    calls w' =
    (calls w ++
     [(VertexBuffer_new positions (4 * 2 * sizeof_float), rv);
      (VertexArray_AddBuffer (va app) (value rv) [(GL_FLOAT, 2)], ra);
      (IndexBuffer_new indices 6, ri)] ++ tr)%list /\
    vb app' = value rv /\ ib app' = value ri /\
    Application_delete app' =
    ((if value rv =? nullptr then [] else [delete_VertexBuffer (value rv)])
     ++ (if value ri =? nullptr then [] else [delete_IndexBuffer (value ri)]))%list.
Proof. exact (init_returned app w app' w'). Qed.

(** X13.  [init] run a second time on the same object allocates a second
    pair of buffers and overwrites [vb] and [ib] without releasing the
    first pair: the destructor then releases the second pair only. *)
Theorem second_init_leaks_first_buffers app (w : Builder.World Driver)
  app1 w1 app2 w2 :
  init gl int_of files app w = Done app1 w1 ->
  init gl int_of files app1 w1 = Done app2 w2 ->
  exists rv1 ra1 ri1 tr1 rv2 ra2 ri2 tr2,
    calls w2 =
    (calls w ++
     [(VertexBuffer_new positions (4 * 2 * sizeof_float), rv1);
      (VertexArray_AddBuffer (va app) (value rv1) [(GL_FLOAT, 2)], ra1);
      (IndexBuffer_new indices 6, ri1)] ++ tr1 ++
     [(VertexBuffer_new positions (4 * 2 * sizeof_float), rv2);
      (VertexArray_AddBuffer (va app) (value rv2) [(GL_FLOAT, 2)], ra2);
      (IndexBuffer_new indices 6, ri2)] ++ tr2)%list /\
    vb app1 = value rv1 /\ ib app1 = value ri1 /\
    Application_delete app2 =
    ((if value rv2 =? nullptr then [] else [delete_VertexBuffer (value rv2)])
     ++ (if value ri2 =? nullptr then [] else [delete_IndexBuffer (value ri2)]))%list.
Proof.
  intros H1 H2.
  destruct (init_returned app w app1 w1 H1)
    as (_ & _ & Hva & rv1 & ra1 & ri1 & tr1 & Hc1 & Hvb1 & Hib1 & _).
  destruct (init_returned app1 w1 app2 w2 H2)
    as (_ & _ & _ & rv2 & ra2 & ri2 & tr2 & Hc2 & _ & _ & Hdel).
  exists rv1, ra1, ri1, tr1, rv2, ra2, ri2, tr2.
  split; [|now repeat split].
  rewrite Hc2, Hc1, Hva. now rewrite <- !app_assoc.
Qed.

(** X9.  Whatever the implementation answers: a frame that completes has
    made the five calls of a frame, in the order of the source, has
    advanced ([r], [m_Increment]) by exactly one step of the colour cycle
    and has changed no other field; a frame that is stopped has left [r]
    where it was; and [render] is undefined only when [va] or [ib] is
    null. *)
Theorem render_frame_outcomes app (w : Builder.World Driver) :
  match render gl app w with
  | Done app' w' =>
      (r w', m_Increment app') = cycle_step (r w, m_Increment app) /\
      same_handles app' app /\
      map fst (calls w') = (map fst (calls w) ++ frame_calls app (r w))%list
  | Halted w' => r w' = r w
  | Undef => (va app =? nullptr) = true \/ (ib app =? nullptr) = true
  end.
Proof.
  pose proof (render_cases Driver gl app w) as H.
  destruct (render gl app w); [|exact (proj1 H)|exact H].
  destruct H as (H1 & H2 & H3 & _).
  split; [exact H1|]. split; [exact H2 | exact H3].
Qed.

End Laws.


(** *** The colour cycle for ever *)

Lemma cycle_add a b s : cycle (a + b) s = cycle a (cycle b s).
Proof. induction a as [|a IH]; cbn [Nat.add cycle]; [reflexivity | now rewrite IH]. Qed.

(** After the first climb the cycle is back where it was 202 frames ago. *)
Lemma state_223 : state 223 = state 21.
Proof. vm_compute. reflexivity. Qed.

Lemma state_periodic n : (21 <= n)%nat -> state (n + 202) = state n.
Proof.
  intros Hn. unfold state.
  replace (n + 202)%nat with ((n - 21) + 223)%nat by lia.
  replace n with ((n - 21) + 21)%nat at 2 by lia.
  rewrite !cycle_add. fold (state 223). fold (state 21).
  now rewrite state_223.
Qed.

Definition f1_01 : float := literal 101 100.

(** The value is within [-0.01f, 1.01f] and the step is one of the three
    the source writes. *)
Definition in_range (s : float * float) : bool :=
  leb (opp f0_01) (fst s) && leb (fst s) f1_01
  && (same (snd s) f0_05 || same (snd s) f0_01 || same (snd s) (opp f0_01)).

Lemma in_range_first : forallb (fun n => in_range (state n)) (seq 0 223) = true.
Proof. vm_compute. reflexivity. Qed.

Lemma in_range_always n : in_range (state n) = true.
Proof.
  induction n as [n IH] using (well_founded_induction Wf_nat.lt_wf).
  destruct (Nat.lt_ge_cases n 223) as [Hlt|Hge].
  - apply (bounded_forall (fun k => in_range (state k)) 0 223 in_range_first).
    lia.
  - replace n with ((n - 202) + 202)%nat by lia.
    rewrite state_periodic by lia. apply IH. lia.
Qed.

(** The value leaves the interval from [0.0f] to [1.0f] on both sides. *)
Lemma overshoots :
  ltb f1_0 (fst (state 20)) = true /\ ltb (fst (state 121)) f0_0 = true.
Proof. split; vm_compute; reflexivity. Qed.

Section Animation.

Variable Driver : Type.
Variable gl : call -> Driver -> reply * Driver.
Variable int_of : ShaderType -> Z.
Variable files : filesystem.

(** X10.  With an implementation that raises no error, from a fresh
    start ([r] at [0.0f], step [0.05f]): after every number of frames [r]
    is between [-0.01f] and [1.01f] and the step is [0.05f], [0.01f] or
    [-0.01f]; [r] does go above [1.0f] (after frame 20) and below [0.0f]
    (after frame 121), so the red value handed to [glUniform4f] is not
    always within 0 to 1; and from frame 21 on the animation repeats
    exactly every 202 frames. *)
Theorem animation_bounded_and_periodic app (w : Builder.World Driver) :
  never_fails gl ->
  (va app =? nullptr) = false -> (ib app =? nullptr) = false ->
  m_Increment app = f0_05 -> r w = f0_0 ->
  (forall n, exists app_n w_n,
     frames gl n app w = Done app_n w_n /\
     leb (opp f0_01) (r w_n) = true /\ leb (r w_n) f1_01 = true /\
     (m_Increment app_n = f0_05 \/ m_Increment app_n = f0_01 \/
      m_Increment app_n = opp f0_01)) /\
  (exists a20 w20 a121 w121,
     frames gl 20 app w = Done a20 w20 /\ ltb f1_0 (r w20) = true /\
     frames gl 121 app w = Done a121 w121 /\ ltb (r w121) f0_0 = true) /\
  (forall n, (21 <= n)%nat ->
     exists a1 w1 a2 w2,
       frames gl n app w = Done a1 w1 /\
       frames gl (n + 202) app w = Done a2 w2 /\
       r w2 = r w1 /\ m_Increment a2 = m_Increment a1).
Proof.
  intros Hnf Hva Hib Hinc Hr.
  assert (F : forall n, exists a w',
             frames gl n app w = Done a w' /\
             (r w', m_Increment a) = state n).
  { intros n.
    destruct (frames_cycle Driver gl n app w Hnf Hva Hib)
      as (a & w' & Hrun & Hst & _).
    rewrite Hr, Hinc in Hst. now exists a, w'. }
  split; [|split].
  - intros n. destruct (F n) as (a & w' & Hrun & Hst).
    exists a, w'. split; [exact Hrun|].
    pose proof (in_range_always n) as H. rewrite <- Hst in H.
    unfold in_range in H. cbn [fst snd] in H.
    apply andb_true_iff in H as [H Hs]. apply andb_true_iff in H as [Hlo Hhi].
    split; [exact Hlo|]. split; [exact Hhi|].
    apply orb_true_iff in Hs as [Hs|Hs];
      [apply orb_true_iff in Hs as [Hs|Hs]|];
      apply same_eq in Hs; auto.
  - destruct (F 20%nat) as (a20 & w20 & R20 & S20).
    destruct (F 121%nat) as (a121 & w121 & R121 & S121).
    exists a20, w20, a121, w121.
    destruct overshoots as [O1 O2]. rewrite <- S20 in O1. rewrite <- S121 in O2.
    now repeat split.
  - intros n Hn. destruct (F n) as (a1 & w1 & R1 & S1).
    destruct (F (n + 202)%nat) as (a2 & w2 & R2 & S2).
    exists a1, w1, a2, w2. split; [exact R1|]. split; [exact R2|].
    rewrite (state_periodic n Hn), <- S1 in S2. now injection S2.
Qed.

(** X11.  When [init] has returned for an object with step [0.05f] and [r]
    at [0.0f], and the implementation raises no error, every number of
    frames after it returns, with [r] and the step where the colour cycle
    puts them, the colour set each frame at the location [init] stored,
    and the frames' calls one block of five per frame. *)
Theorem frames_after_init app (w : Builder.World Driver) app' w' :
  never_fails gl ->
  init gl int_of files app w = Done app' w' ->
  m_Increment app = f0_05 -> r w = f0_0 ->
  (ib app' =? nullptr) = false ->
  forall n, exists app_n w_n,
    frames gl n app' w' = Done app_n w_n /\
    (r w_n, m_Increment app_n) = state n /\
    m_UniformLoc app_n = m_UniformLoc app' /\
    map fst (calls w_n) =
    (map fst (calls w') ++
     flat_map (fun k => frame_calls app' (fst (state k))) (seq 0 n))%list.
Proof.
  intros Hnf Hinit Hinc Hr Hib n.
  destruct (va app =? nullptr) eqn:Hva;
    [rewrite init_undefined_when in Hinit by (now left); discriminate|].
  destruct (ParseShader int_of files "res/shaders/Basic.shader")
    as [src|] eqn:Hsrc;
    [|rewrite init_undefined_when in Hinit by (now right); discriminate].
  pose proof (init_phases Driver gl int_of files app w Hva) as H.
  rewrite Hinit in H. destruct H as (Hr' & Hi' & Hv' & _).
  assert (Hva' : (va app' =? nullptr) = false) by congruence.
  destruct (frames_cycle Driver gl n app' w' Hnf Hva' Hib)
    as (a & wn & Hrun & Hst & (_ & Hloc & _) & Hcalls).
  rewrite Hr', Hr, Hi', Hinc in Hst, Hcalls.
  exists a, wn. now repeat split.
Qed.

End Animation.

Lemma destructor_releases_init_buffers_witness :
  exists app' w',
    init (sample_gl 7) customary sample_files sample_app sample_world
      = Done app' w' /\
    exists rv ri,
      In (VertexBuffer_new positions (4 * 2 * sizeof_float), rv) (calls w') /\
      In (IndexBuffer_new indices 6, ri) (calls w') /\
      Application_delete app' =
      [delete_VertexBuffer (value rv); delete_IndexBuffer (value ri)].
Proof.
  computed (init (sample_gl 7) customary sample_files sample_app sample_world)
    ltac:(fun v H => match v with Done ?a ?w =>
  pose proof (destructor_releases_init_buffers Z (sample_gl 7) customary
                sample_files sample_app sample_world a w H) as Hthm;
  exists a, w; split; [exact H|]
  end).
  destruct Hthm as (_ & _ & _ & rv & ra & ri & tr & Hc & Hvb & Hib & Hdel).
  exists rv, ri. split; [|split].
  - rewrite Hc. cbn [calls sample_world app]. now left.
  - rewrite Hc. cbn [calls sample_world app]. right. right. now left.
  - rewrite Hdel, <- Hvb, <- Hib. reflexivity.
Defined.

Lemma animation_bounded_and_periodic_witness :
  exists a1 w1 a2 w2,
    frames (sample_gl 0) 30 sample_app sample_world = Done a1 w1 /\
    frames (sample_gl 0) 232 sample_app sample_world = Done a2 w2 /\
    r w2 = r w1 /\ m_Increment a2 = m_Increment a1.
Proof.
  pose proof (animation_bounded_and_periodic Z (sample_gl 0) sample_app
                sample_world (sample_gl_never_fails 0)
                eq_refl eq_refl eq_refl eq_refl) as (_ & _ & Hper).
  exact (Hper 30%nat ltac:(lia)).
Defined.

Lemma frames_after_init_witness :
  exists app' w' app_n w_n,
    init (sample_gl 7) customary sample_files sample_app sample_world
      = Done app' w' /\
    frames (sample_gl 7) 3 app' w' = Done app_n w_n /\
    (r w_n, m_Increment app_n) = state 3 /\
    m_UniformLoc app_n = 7.
Proof.
  computed (init (sample_gl 7) customary sample_files sample_app sample_world)
    ltac:(fun v H => match v with Done ?a ?w =>
  pose proof (frames_after_init Z (sample_gl 7) customary sample_files
                sample_app sample_world a w (sample_gl_never_fails 7) H
                eq_refl eq_refl eq_refl 3%nat) as Hthm;
  exists a, w
  end).
  destruct Hthm as (an & wn & Hfr & Hst & Hloc & _).
  exists an, wn. split; [exact Hrun|]. split; [exact Hfr|].
  split; [exact Hst|]. rewrite Hloc. reflexivity.
Defined.

Lemma second_init_leaks_first_buffers_witness :
  exists app1 w1 app2 w2,
    init (sample_gl 7) customary sample_files sample_app sample_world
      = Done app1 w1 /\
    init (sample_gl 7) customary sample_files app1 w1 = Done app2 w2 /\
    exists rv1 ri1 rv2 ri2,
      vb app1 = value rv1 /\ ib app1 = value ri1 /\
      In (VertexBuffer_new positions (4 * 2 * sizeof_float), rv1) (calls w2) /\
      In (IndexBuffer_new indices 6, ri1) (calls w2) /\
      Application_delete app2 =
      ((if value rv2 =? nullptr then [] else [delete_VertexBuffer (value rv2)])
       ++ (if value ri2 =? nullptr then []
           else [delete_IndexBuffer (value ri2)]))%list.
Proof.
  computed (init (sample_gl 7) customary sample_files sample_app sample_world)
    ltac:(fun v1 H1 => match v1 with Done ?a1 ?w1 =>
  computed (init (sample_gl 7) customary sample_files a1 w1)
    ltac:(fun v2 H2 => match v2 with Done ?a2 ?w2 =>
  pose proof (second_init_leaks_first_buffers Z (sample_gl 7) customary
                sample_files sample_app sample_world a1 w1 a2 w2 H1 H2)
    as Hthm;
  exists a1, w1, a2, w2; split; [exact H1|]; split; [exact H2|]
  end) end).
  destruct Hthm
    as (rv1 & ra1 & ri1 & tr1 & rv2 & ra2 & ri2 & tr2 & Hc & Hvb & Hib & Hdel).
  exists rv1, ri1, rv2, ri2.
  split; [exact Hvb|]. split; [exact Hib|].
  split; [|split; [|exact Hdel]]; rewrite Hc; cbn [calls sample_world app].
  - now left.
  - right. right. now left.
Defined.


End BuilderLaws.
